(** * sing-box rule compiler: classification and normalisation of list entries

    A shallow embedding of [src/sing-box/compile-rules.ts].

    JavaScript strings are modelled by [string]: every [ascii] is one code
    unit in the range 0..255 (Latin-1), so the development covers the strings
    whose code units all lie in that range.  [String.prototype.trim] and
    [String.prototype.toLowerCase] are written out for that range. *)

From Stdlib Require Import Strings.String Strings.Ascii Lists.List.
From Stdlib Require Import NArith Arith Bool Lia.
From Stdlib Require Import Numbers.DecimalString.
Import ListNotations.

Open Scope string_scope.
Open Scope bool_scope.

(** ** The string primitives the program uses *)

Module JS.

Definition code (c : ascii) : N := N_of_ascii c.

(** WhiteSpace and LineTerminator code units below 256: TAB, LF, VT, FF, CR,
    SP and NBSP.  These are what [trim] removes. *)
Definition isWhiteSpace (c : ascii) : bool :=
  let n := code c in
  ((9 <=? n) && (n <=? 13) || (n =? 32) || (n =? 160))%N.

Fixpoint trimStart (s : string) : string :=
  match s with
  | EmptyString => EmptyString
  | String c s' => if isWhiteSpace c then trimStart s' else s
  end.

Fixpoint trimEnd (s : string) : string :=
  match s with
  | EmptyString => EmptyString
  | String c s' =>
      match trimEnd s' with
      | EmptyString => if isWhiteSpace c then EmptyString else String c EmptyString
      | r => String c r
      end
  end.

(** [value.trim()] *)
Definition trim (s : string) : string := trimEnd (trimStart s).

(** Lower-case mapping of one code unit below 256: A-Z, and the Latin-1
    capitals U+00C0..U+00DE except the multiplication sign U+00D7. *)
Definition lowerChar (c : ascii) : ascii :=
  let n := code c in
  if ((65 <=? n) && (n <=? 90) || (192 <=? n) && (n <=? 222) && negb (n =? 215))%N
  then ascii_of_N (n + 32)
  else c.

(** [value.toLowerCase()] *)
Fixpoint toLowerCase (s : string) : string :=
  match s with
  | EmptyString => EmptyString
  | String c s' => String (lowerChar c) (toLowerCase s')
  end.

(** [s.startsWith(p)] *)
Fixpoint startsWith (s p : string) {struct p} : bool :=
  match p with
  | EmptyString => true
  | String b p' =>
      match s with
      | EmptyString => false
      | String a s' => Ascii.eqb a b && startsWith s' p'
      end
  end.

(** [s.slice(n)] for a non-negative [n] *)
Fixpoint slice (s : string) (n : nat) {struct n} : string :=
  match n with
  | O => s
  | S n' =>
      match s with
      | EmptyString => EmptyString
      | String _ s' => slice s' n'
      end
  end.

(** [s.includes(p)] *)
Fixpoint includes (s p : string) : bool :=
  startsWith s p ||
  match s with
  | EmptyString => false
  | String _ s' => includes s' p
  end.

(** [s.split(sep)] for a separator of one code unit, which is every use in
    the program (".", "/" and the line feed). *)
Fixpoint split (s : string) (sep : ascii) : list string :=
  match s with
  | EmptyString => [EmptyString]
  | String c s' =>
      if Ascii.eqb c sep then EmptyString :: split s' sep
      else match split s' sep with
           | [] => [String c EmptyString]
           | p :: ps => String c p :: ps
           end
  end.

(** [s.split(sep, limit)]: all the pieces are cut, then the first [limit]
    are kept. *)
Definition splitLimit (s : string) (sep : ascii) (limit : nat) : list string :=
  firstn limit (split s sep).

Fixpoint every (p : ascii -> bool) (s : string) : bool :=
  match s with
  | EmptyString => true
  | String c s' => p c && every p s'
  end.

Definition isDigit (c : ascii) : bool :=
  let n := code c in ((48 <=? n) && (n <=? 57))%N.

Definition isHexDigit (c : ascii) : bool :=
  let n := code c in
  ((48 <=? n) && (n <=? 57) || (65 <=? n) && (n <=? 70) || (97 <=? n) && (n <=? 102))%N.

Definition nonEmpty (s : string) : bool :=
  match s with EmptyString => false | String _ _ => true end.

(** [/^\d+$/.test(s)] *)
Definition testDigits (s : string) : bool := nonEmpty s && every isDigit s.

(** [/^[0-9a-fA-F:]+$/.test(s)] *)
Definition testHexColon (s : string) : bool :=
  nonEmpty s && every (fun c => isHexDigit c || Ascii.eqb c ":"%char) s.

(** [Number(s)] on the strings the program passes to it: a string of
    decimal digits, or the empty string (whose value is 0).  The value is
    kept exact; the program only compares it with 32, 128 and 255, and the
    rounding to a double preserves those comparisons. *)
Fixpoint NumberFrom (acc : N) (s : string) : N :=
  match s with
  | EmptyString => acc
  | String c s' => NumberFrom (10 * acc + (code c - 48))%N s'
  end.

Definition Number (s : string) : N := NumberFrom 0 s.

(** [`${n}`] for a length *)
Definition showNat (n : nat) : string := NilEmpty.string_of_uint (Nat.to_uint n).

End JS.

Import JS.

(** ** Classification and normalisation (lines 23-72) *)

Definition normalizeDomainSuffix (value : string) : string :=
  let v := toLowerCase (trim value) in
  let v := if startsWith v "*." then slice v 2 else v in
  let v := if startsWith v "." then slice v 1 else v in
  v.

Definition isIPv4 (value : string) : bool :=
  let parts := split value "."%char in
  if negb (length parts =? 4)%nat then false
  else forallb (fun p =>
         if negb (testDigits p) then false
         else let n := Number p in ((0 <=? n) && (n <=? 255))%N) parts.

Definition isIPv6 (value : string) : bool :=
  includes value ":" && testHexColon value.

Definition normalizeCidr (value : string) : string :=
  let v := trim value in
  if includes v "/" then v
  else if isIPv4 v then v ++ "/32"
  else if isIPv6 v then v ++ "/128"
  else v.

Definition isIpOrCidr (value : string) : bool :=
  let v := trim value in
  let pieces := splitLimit v "/"%char 2 in
  let ip := nth 0 pieces EmptyString in
  let prefix := nth_error pieces 1 in
  if negb (nonEmpty ip) then false
  else if match prefix with
          | Some p => nonEmpty p && negb (testDigits p)
          | None => false
          end then false
  else if isIPv4 ip then
    match prefix with
    | None => true
    | Some p => let n := Number p in ((0 <=? n) && (n <=? 32))%N
    end
  else if isIPv6 ip then
    match prefix with
    | None => true
    | Some p => let n := Number p in ((0 <=? n) && (n <=? 128))%N
    end
  else false.

(** The three-way answer the program computes wherever it asks [isIPv4]
    and then [isIPv6] (in [normalizeCidr] and in [isIpOrCidr]). *)
Inductive IpKind := IPv4 | IPv6 | NotIp.

Definition classifyIp (token : string) : IpKind :=
  if isIPv4 token then IPv4
  else if isIPv6 token then IPv6
  else NotIp.

(** ** Data model (lines 7-21) *)

Record Rule := {
  rule_domains : option string;
  rule_subnets : option string;
  rule_list : option (list string);
  rule_outbound : string
}.

Record Config := { rules : list Rule }.

Record OutboundData := {
  domains : list string;
  subnets : list string
}.

(** One element of the [rules] array of the emitted document: an object with
    the single key [domain_suffix] or [ip_cidr]. *)
Inductive RuleBlock :=
| domain_suffix (l : list string)
| ip_cidr (l : list string).

Record RuleSetDocument := {
  version : N;
  ruleBlocks : list RuleBlock
}.

(** ** Effects: the outside world, the console and the [Map] of outbounds *)

Inductive Outcome (A : Type) :=
| Return (a : A)
| Throw (err : string).
Arguments Return {A} a.
Arguments Throw {A} err.

Inductive FetchResult :=
| FetchRejected (err : string)
| FetchResponse (ok : bool) (statusText body : string).

(** What the program takes from its environment.  Each is a function of its
    arguments: a source read twice yields the same text. *)
Record Externals := {
  join : string -> string -> string;               (* path.join(a, b) *)
  metaDir : string;                                (* import.meta.dir *)
  fetch : string -> FetchResult;                   (* fetch(url), then .text() *)
  fileText : string -> Outcome string;             (* Bun.file(path).text() *)
  singBox : string -> string -> Outcome unit       (* sing-box rule-set compile *)
}.

(** What the run does to the outside, in order.  A [Bun.write] is taken to
    succeed; [BunWriteJson] stands for the write of
    [JSON.stringify(ruleSet, null, 2)], with the document kept structured. *)
Inductive Event :=
| ConsoleLog (line : string)
| ConsoleError (line : string)
| BunWrite (path content : string)
| BunWriteJson (path : string) (doc : RuleSetDocument)
| ShellSingBox (jsonPath srsPath : string).

(** [outbounds] is the [Map<string, OutboundData>] of [main], in insertion
    order; [trace] is what the run has printed, written and invoked, oldest
    first. *)
Record World := {
  outbounds : list (string * OutboundData);
  trace : list Event
}.

Definition emptyWorld : World := {| outbounds := []; trace := [] |}.

Definition M (A : Type) : Type := World -> Outcome A * World.

Definition ret {A} (a : A) : M A := fun w => (Return a, w).

Definition throw {A} (err : string) : M A := fun w => (Throw err, w).

Definition bind {A B} (m : M A) (k : A -> M B) : M B :=
  fun w =>
    match m w with
    | (Return a, w') => k a w'
    | (Throw e, w') => (Throw e, w')
    end.

Notation "x <- m ;; k" := (bind m (fun x => k))
  (at level 61, m at next level, right associativity).
Notation "m ;; k" := (bind m (fun _ => k))
  (at level 61, right associativity).

Definition emit (e : Event) : M unit :=
  fun w => (Return tt, {| outbounds := outbounds w; trace := trace w ++ [e] |}).

Definition log (line : string) : M unit := emit (ConsoleLog line).

Fixpoint forEach {A} (body : A -> M unit) (l : list A) : M unit :=
  match l with
  | [] => ret tt
  | x :: l' => body x ;; forEach body l'
  end.

(** *** The [Map] operations *)

Fixpoint mapGet (k : string) (m : list (string * OutboundData)) : option OutboundData :=
  match m with
  | [] => None
  | (k', d) :: m' => if String.eqb k' k then Some d else mapGet k m'
  end.

Definition mapHas (k : string) (m : list (string * OutboundData)) : bool :=
  match mapGet k m with Some _ => true | None => false end.

Fixpoint mapSet (k : string) (d : OutboundData) (m : list (string * OutboundData))
  : list (string * OutboundData) :=
  match m with
  | [] => [(k, d)]
  | (k', d') :: m' =>
      if String.eqb k' k then (k, d) :: m' else (k', d') :: mapSet k d m'
  end.

(** A mutation of the object the [Map] holds under [k] (the program mutates
    it through the reference [data]). *)
Definition mutate (k : string) (f : OutboundData -> OutboundData) : M unit :=
  fun w =>
    (Return tt,
     {| outbounds := match mapGet k (outbounds w) with
                     | Some d => mapSet k (f d) (outbounds w)
                     | None => outbounds w
                     end;
        trace := trace w |}).

Definition pushDomains (k : string) (ds : list string) : M unit :=
  mutate k (fun d => {| domains := domains d ++ ds; subnets := subnets d |}).

Definition pushSubnets (k : string) (ss : list string) : M unit :=
  mutate k (fun d => {| domains := domains d; subnets := subnets d ++ ss |}).

(** [[...new Set(l)]]: a [Set] keeps its elements in insertion order and
    ignores an element it already holds. *)
Definition setAdd (seen : list string) (x : string) : list string :=
  if existsb (String.eqb x) seen then seen else seen ++ [x].

Definition dedupe (l : list string) : list string := fold_left setAdd l [].

Definition LF : ascii := "010"%char.

(** ** The program (lines 74-220) *)

Section Program.

Variable E : Externals.

(** [data] is the accumulator stored under [key]. *)
Definition addMixedEntry (value : string) (key : string) : M unit :=
  let v := trim value in
  if negb (nonEmpty v) then ret tt
  else if isIpOrCidr v then pushSubnets key [normalizeCidr v]
  else pushDomains key [normalizeDomainSuffix v].

Definition readLines (source baseDir : string) : M (list string) :=
  content <-
    (if startsWith source "http://" || startsWith source "https://" then
       log ("  Fetching: " ++ source) ;;
       match fetch E source with
       | FetchRejected err => throw err
       | FetchResponse ok statusText body =>
           if negb ok
           then throw ("Failed to fetch " ++ source ++ ": " ++ statusText)
           else ret body
       end
     else
       let filePath := join E baseDir source in
       log ("  Reading: " ++ filePath) ;;
       match fileText E filePath with
       | Throw err => throw err
       | Return content => ret content
       end) ;;
  ret (filter (fun line => nonEmpty line && negb (startsWith line "#"))
         (map trim (split content LF))).

(** The array [rules] that [generateSrs] builds (lines 121-129). *)
Definition rulesOf (data : OutboundData) : list RuleBlock :=
  (if (0 <? length (domains data))%nat then [domain_suffix (domains data)] else []) ++
  (if (0 <? length (subnets data))%nat then [ip_cidr (subnets data)] else []).

Definition generateSrs (outboundName : string) (data : OutboundData)
    (outputDir : string) : M unit :=
  let jsonDir := join E outputDir "json" in
  let srsDir := join E outputDir "srs" in
  emit (BunWrite (join E jsonDir ".gitkeep") "") ;;
  emit (BunWrite (join E srsDir ".gitkeep") "") ;;
  let rules := rulesOf data in
  if (length rules =? 0)%nat then
    log ("  Skipping " ++ outboundName ++ ": no rules")
  else
    let ruleSet := {| version := 3; ruleBlocks := rules |} in
    let jsonPath := join E jsonDir (outboundName ++ "-rule.json") in
    let srsPath := join E srsDir (outboundName ++ "-rule.srs") in
    emit (BunWriteJson jsonPath ruleSet) ;;
    log ("  Generated JSON: " ++ jsonPath) ;;
    emit (ShellSingBox jsonPath srsPath) ;;
    match singBox E jsonPath srsPath with
    | Return _ => log ("  Compiled SRS: " ++ srsPath)
    | Throw error => emit (ConsoleError ("  Failed to compile " ++ jsonPath ++ ": " ++ error))
    end.

(** The body of the loop over [rule.list] (lines 185-202). *)
Definition processListEntry (key : string) (entry : string) : M unit :=
  let v := trim entry in
  if negb (nonEmpty v) then ret tt
  else if isIpOrCidr v then pushSubnets key [normalizeCidr v]
  else if startsWith v "http://" || startsWith v "https://" || includes v "/" then
    lines <- readLines v (metaDir E) ;;
    forEach (fun line => addMixedEntry line key) lines
  else pushDomains key [normalizeDomainSuffix v].

(** The body of the loop over [config.rules] (lines 167-204). *)
Definition processRule (rule : Rule) : M unit :=
  let key := rule_outbound rule in
  (fun w =>
     if negb (mapHas key (outbounds w))
     then (Return tt,
           {| outbounds := mapSet key {| domains := []; subnets := [] |} (outbounds w);
              trace := trace w |})
     else (Return tt, w)) ;;
  match rule_domains rule with
  | Some src =>
      if nonEmpty src then
        lines <- readLines src (metaDir E) ;;
        pushDomains key (map normalizeDomainSuffix lines)
      else ret tt
  | None => ret tt
  end ;;
  match rule_subnets rule with
  | Some src =>
      if nonEmpty src then
        lines <- readLines src (metaDir E) ;;
        pushSubnets key (map normalizeCidr lines)
      else ret tt
  | None => ret tt
  end ;;
  match rule_list rule with
  | Some entries =>
      if (0 <? length entries)%nat then forEach (processListEntry key) entries
      else ret tt
  | None => ret tt
  end.

(** The body of the loop over the [Map] (lines 209-216). *)
Definition emitOutbound (outputDir : string) (entry : string * OutboundData) : M unit :=
  let '(outbound, data) := entry in
  log (String LF ("Outbound: " ++ outbound)) ;;
  log ("  Domains: " ++ showNat (length (domains data)) ++
       ", Subnets: " ++ showNat (length (subnets data))) ;;
  let data' := {| domains := dedupe (domains data); subnets := dedupe (subnets data) |} in
  mutate outbound (fun _ => data') ;;
  generateSrs outbound data' outputDir.

(** [main], from the parsed configuration on (lines 164-219); reading and
    parsing [config.yaml] is the caller's. *)
Definition main (config : Config) : M unit :=
  let configPath := join E (metaDir E) "config.yaml" in
  let outputDir := metaDir E in
  log ("Reading config: " ++ configPath) ;;
  forEach processRule (rules config) ;;
  log (String LF "Generating rule sets...") ;;
  (fun w => forEach (emitOutbound outputDir) (outbounds w) w) ;;
  log (String LF "Done!").

(** [main().catch(console.error)] *)
Definition run (config : Config) (w : World) : World :=
  match main config w with
  | (Return _, w') => w'
  | (Throw err, w') => {| outbounds := outbounds w'; trace := trace w' ++ [ConsoleError err] |}
  end.

End Program.

(** ** The contracts in the words of the specification

    Definitions written from the specification's sentences, to be compared
    with the functions above. *)

Definition chars (s : string) : list ascii := list_ascii_of_string s.

(** Cutting a token at its first separator: the part before it, and the
    part after it when there is a separator. *)
Fixpoint cutFirst (s : string) (sep : ascii) : string * option string :=
  match s with
  | EmptyString => (EmptyString, None)
  | String c s' =>
      if Ascii.eqb c sep then (EmptyString, Some s')
      else let (a, p) := cutFirst s' sep in (String c a, p)
  end.

Definition occurrences (sep : ascii) (s : string) : nat :=
  count_occ ascii_dec (chars s) sep.

(** A part of a dotted address as section 4.1 words it: a string of decimal
    digits whose value is at most 255. *)
Definition decimalOctet (p : string) : Prop :=
  p <> EmptyString /\
  (forall c, In c (chars p) -> In c (chars "0123456789")) /\
  (Number p <= 255)%N.

Definition ipv4Shape (token : string) : Prop :=
  exists a b c d,
    token = a ++ "." ++ b ++ "." ++ c ++ "." ++ d /\
    decimalOctet a /\ decimalOctet b /\ decimalOctet c /\ decimalOctet d.

(** The pieces of a split, put together again. *)
Fixpoint joinWith (sep : ascii) (l : list string) : string :=
  match l with
  | [] => EmptyString
  | [p] => p
  | p :: l' => p ++ String sep (joinWith sep l')
  end.

Definition ipv6Shape (token : string) : Prop :=
  In ":"%char (chars token) /\
  forall c, In c (chars token) -> In c (chars "0123456789abcdefABCDEF:").

(** [isIpOrCidr] as section 4.1 words it, on the token as given. *)
Definition isIpOrCidr_claimed (token : string) : bool :=
  let (address, prefixStr) := cutFirst token "/"%char in
  if negb (nonEmpty address) then false
  else if match prefixStr with
          | Some p => nonEmpty p && negb (testDigits p)
          | None => false
          end then false
  else match classifyIp address, prefixStr with
       | IPv4, None => true
       | IPv4, Some p => ((0 <=? Number p) && (Number p <=? 32))%N
       | IPv6, None => true
       | IPv6, Some p => ((0 <=? Number p) && (Number p <=? 128))%N
       | NotIp, _ => false
       end.

(** [normalizeDomainSuffix] as section 4.2 words it: the leading dot is
    stripped only when there was no wildcard prefix. *)
Definition normalizeDomainSuffix_claimed (token : string) : string :=
  let v := toLowerCase (trim token) in
  if startsWith v "*." then slice v 2
  else if startsWith v "." then slice v 1
  else v.

(** What the program strips: a wildcard prefix, and then a dot, also the
    dot that a stripped wildcard prefix uncovers. *)
Definition stripMarkers (v : string) : string :=
  match v with
  | String "*" (String "." (String "." r)) => r
  | String "*" (String "." r) => r
  | String "." r => r
  | _ => v
  end.

(** A normalised suffix on which a second normalisation has nothing to do:
    it begins with no whitespace, no dot and no wildcard prefix. *)
Definition settled (y : string) : bool :=
  match y with
  | EmptyString => true
  | String c r =>
      negb (isWhiteSpace c) && negb (Ascii.eqb c ".") && negb (startsWith y "*.")
  end.

(** The Mixed-Entry Resolver of section 4.3. *)
Inductive ClassifiedToken :=
| Domain (value : string)
| Subnet (value : string).

Definition resolveMixedEntry (line : string) : option ClassifiedToken :=
  if negb (nonEmpty (trim line)) then None
  else if isIpOrCidr line then Some (Subnet (normalizeCidr line))
  else Some (Domain (normalizeDomainSuffix line)).

Definition route (t : option ClassifiedToken) (d : OutboundData) : OutboundData :=
  match t with
  | None => d
  | Some (Domain v) => {| domains := domains d ++ [v]; subnets := subnets d |}
  | Some (Subnet v) => {| domains := domains d; subnets := subnets d ++ [v] |}
  end.

(** A list entry that is read as a reference to a further list. *)
Definition looksLikeSource (v : string) : bool :=
  startsWith v "http://" || startsWith v "https://" || includes v "/".

(** Finalisation of one accumulator. *)
Definition finalize (d : OutboundData) : OutboundData :=
  {| domains := dedupe (domains d); subnets := dedupe (subnets d) |}.

(** The world with the accumulator under [key] replaced. *)
Definition withData (key : string) (d : OutboundData) (w : World) : World :=
  {| outbounds := mapSet key d (outbounds w); trace := trace w |}.

(** The documents a trace has written, oldest first. *)
Fixpoint emitted (t : list Event) : list (string * RuleSetDocument) :=
  match t with
  | [] => []
  | BunWriteJson path doc :: t' => (path, doc) :: emitted t'
  | _ :: t' => emitted t'
  end.

(** The invariant of section 3 on one accumulator and on the whole [Map]. *)
Definition normalized (d : OutboundData) : Prop :=
  Forall (fun x => exists token, x = normalizeDomainSuffix token) (domains d) /\
  Forall (fun x => exists token, x = normalizeCidr token) (subnets d).

Definition allNormalized (w : World) : Prop :=
  forall key d, mapGet key (outbounds w) = Some d -> normalized d.

(** ** Auxiliary notions of the proofs *)

(** A string that does not begin with whitespace. *)
Definition headClean (s : string) : bool :=
  match s with
  | EmptyString => true
  | String c _ => negb (isWhiteSpace c)
  end.

(** The two conditional slices of [normalizeDomainSuffix]. *)
Definition strip (v : string) : string :=
  let v := if startsWith v "*." then slice v 2 else v in
  if startsWith v "." then slice v 1 else v.

(** The test [isIPv4] applies to each part. *)
Definition octetCheck (p : string) : bool :=
  if negb (testDigits p) then false
  else let n := Number p in ((0 <=? n) && (n <=? 255))%N.

(** Routing every line of a loaded list, in order. *)
Definition routeAll (lines : list string) (d : OutboundData) : OutboundData :=
  fold_left (fun acc line => route (resolveMixedEntry line) acc) lines d.

Definition finalized (kd : string * OutboundData) : string * OutboundData :=
  (fst kd, finalize (snd kd)).

Definition keysUnique (m : list (string * OutboundData)) : Prop := NoDup (map fst m).

(** What holds of the world all along the loop over the rules. *)
Definition processing (w : World) : Prop :=
  keysUnique (outbounds w) /\ emitted (trace w) = [] /\ allNormalized w.

Definition preserves {A} (m : M A) : Prop :=
  forall w, processing w -> processing (snd (m w)).

Section Traces.

Variable E : Externals.

(** What one call of [generateSrs] appends to the trace. *)
Definition srsTrace (name : string) (d : OutboundData) (out : string) : list Event :=
  trace (snd (generateSrs E name d out emptyWorld)).

(** The document [generateSrs] writes for an accumulator, if any. *)
Definition documentFor (name : string) (d : OutboundData) (out : string)
  : list (string * RuleSetDocument) :=
  match domains d, subnets d with
  | [], [] => []
  | _, _ =>
      [(join E (join E out "json") (name ++ "-rule.json"),
        {| version := 3;
           ruleBlocks :=
             match domains d with [] => [] | _ :: _ => [domain_suffix (domains d)] end ++
             match subnets d with [] => [] | _ :: _ => [ip_cidr (subnets d)] end |})]
  end.

(** What the loop over the [Map] appends to the trace for one outbound. *)
Definition outboundTrace (out : string) (kd : string * OutboundData) : list Event :=
  [ConsoleLog (String LF ("Outbound: " ++ fst kd));
   ConsoleLog ("  Domains: " ++ showNat (length (domains (snd kd))) ++
               ", Subnets: " ++ showNat (length (subnets (snd kd))))] ++
  srsTrace (fst kd) (finalize (snd kd)) out.

(** The world in which [main] starts the loop over the rules. *)
Definition startWorld : World :=
  snd (log ("Reading config: " ++ join E (metaDir E) "config.yaml") emptyWorld).

End Traces.

(** ** A concrete run *)

Module Demo.

Definition nl : string := String LF EmptyString.

Definition files (path : string) : Outcome string :=
  if String.eqb path "/etc/rules/lists/extra.txt" then
    Return ("# extra entries" ++ nl ++ " 10.0.0.0/24 " ++ nl ++ nl ++
            "*.Example.org" ++ nl ++ "1.2.3.4/" ++ nl)
  else if String.eqb path "/etc/rules/subnets.txt" then
    Return ("1.1.1.1/32" ++ nl ++ "8.8.8.8" ++ nl)
  else Throw "ENOENT".

Definition E : Externals :=
  {| join := fun a b => a ++ "/" ++ b;
     metaDir := "/etc/rules";
     fetch := fun _ => FetchRejected "offline";
     fileText := files;
     singBox := fun _ _ => Return tt |}.

Definition config : Config :=
  {| rules :=
       [ {| rule_domains := None; rule_subnets := None;
            rule_list := Some ["8.8.8.8"; "example.com"; " "; ".example.com";
                               "lists/extra.txt"];
            rule_outbound := "direct" |};
         {| rule_domains := None; rule_subnets := Some "subnets.txt";
            rule_list := None; rule_outbound := "direct" |};
         {| rule_domains := None; rule_subnets := None;
            rule_list := Some []; rule_outbound := "idle" |} ] |}.

Definition fresh : World :=
  {| outbounds := [("direct", {| domains := []; subnets := [] |})]; trace := [] |}.

End Demo.

(** ** Notions for the further properties *)

(** The test by which [readLines] chooses between [fetch] and the file
    system (line 90). *)
Definition isUrl (source : string) : bool :=
  startsWith source "http://" || startsWith source "https://".

(** A line as [readLines] hands it on: trimmed, not blank, not a comment and
    without a line feed. *)
Definition cleanLine (l : string) : Prop :=
  trim l = l /\ l <> EmptyString /\ startsWith l "#" = false /\ ~ In LF (chars l).

(** The first step of the loop over the rules (lines 167-169), and the three
    channels that follow it (lines 173-204). *)
Definition ensureOutbound (key : string) : M unit :=
  fun w =>
    if negb (mapHas key (outbounds w))
    then (Return tt,
          {| outbounds := mapSet key {| domains := []; subnets := [] |} (outbounds w);
             trace := trace w |})
    else (Return tt, w).

Definition ruleChannels (E : Externals) (rule : Rule) : M unit :=
  let key := rule_outbound rule in
  match rule_domains rule with
  | Some src =>
      if nonEmpty src then
        lines <- readLines E src (metaDir E) ;;
        pushDomains key (map normalizeDomainSuffix lines)
      else ret tt
  | None => ret tt
  end ;;
  match rule_subnets rule with
  | Some src =>
      if nonEmpty src then
        lines <- readLines E src (metaDir E) ;;
        pushSubnets key (map normalizeCidr lines)
      else ret tt
  | None => ret tt
  end ;;
  match rule_list rule with
  | Some entries =>
      if (0 <? length entries)%nat then forEach (processListEntry E key) entries
      else ret tt
  | None => ret tt
  end.

(** [w'] continues [w]: the console has only gained log lines, the [Map]
    has the same keys in the same order, every accumulator has only been
    appended to, and those under another key than [key0] are as they were. *)
Definition grows (key0 : string) (w w' : World) : Prop :=
  (exists lines, trace w' = (trace w ++ map ConsoleLog lines)%list) /\
  map fst (outbounds w') = map fst (outbounds w) /\
  forall key d,
    mapGet key (outbounds w) = Some d ->
    exists d',
      mapGet key (outbounds w') = Some d' /\
      (exists ds, domains d' = (domains d ++ ds)%list) /\
      (exists ss, subnets d' = (subnets d ++ ss)%list) /\
      (key <> key0 -> d' = d).

Definition growing {A} (key0 : string) (m : M A) : Prop :=
  forall w, grows key0 w (snd (m w)).

(** The same environment with another compiler. *)
Definition withCompiler (E : Externals) (sb : string -> string -> Outcome unit)
  : Externals :=
  {| join := join E;
     metaDir := metaDir E;
     fetch := fetch E;
     fileText := fileText E;
     singBox := sb |}.

(** A configuration whose second rule names a source that cannot be read. *)
Module Broken.

Definition config : Config :=
  {| rules :=
       [ {| rule_domains := None; rule_subnets := None;
            rule_list := Some ["8.8.8.8"; "example.com"];
            rule_outbound := "direct" |};
         {| rule_domains := Some "missing.txt"; rule_subnets := None;
            rule_list := None; rule_outbound := "proxy" |};
         {| rule_domains := None; rule_subnets := Some "subnets.txt";
            rule_list := None; rule_outbound := "direct" |} ] |}.

End Broken.

(** * Properties *)

(** ** Code units *)

Ltac each_ascii c := destruct c as [[] [] [] [] [] [] [] []].

Lemma lowerChar_idem c : lowerChar (lowerChar c) = lowerChar c.
Proof. each_ascii c; reflexivity. Qed.

Lemma isWhiteSpace_lowerChar c : isWhiteSpace (lowerChar c) = isWhiteSpace c.
Proof. each_ascii c; reflexivity. Qed.

Lemma isDigit_chars c : isDigit c = true <-> In c (chars "0123456789").
Proof.
  split.
  - each_ascii c; intro H; try discriminate H; simpl; tauto.
  - simpl. intros H.
    repeat (destruct H as [H | H]; [subst c; reflexivity |]). destruct H.
Qed.

Lemma hexColon_chars c :
  isHexDigit c || Ascii.eqb c ":" = true <->
  In c (chars "0123456789abcdefABCDEF:").
Proof.
  split.
  - each_ascii c; intro H; try discriminate H; simpl; tauto.
  - simpl. intros H.
    repeat (destruct H as [H | H]; [subst c; reflexivity |]). destruct H.
Qed.

Lemma hexColon_not_space c :
  isHexDigit c || Ascii.eqb c ":" = true -> isWhiteSpace c = false.
Proof. each_ascii c; intro H; try discriminate H; reflexivity. Qed.

Lemma hexColon_not_slash c :
  isHexDigit c || Ascii.eqb c ":" = true -> Ascii.eqb c "/" = false.
Proof. each_ascii c; intro H; try discriminate H; reflexivity. Qed.

Lemma digitDot_not_space c :
  isDigit c || Ascii.eqb c "." = true -> isWhiteSpace c = false.
Proof. each_ascii c; intro H; try discriminate H; reflexivity. Qed.

Lemma digitDot_not_slash c :
  isDigit c || Ascii.eqb c "." = true -> Ascii.eqb c "/" = false.
Proof. each_ascii c; intro H; try discriminate H; reflexivity. Qed.

(** ** Strings *)

Lemma trimEnd_cons_blank c s :
  trimEnd s = EmptyString ->
  trimEnd (String c s) = if isWhiteSpace c then EmptyString else String c EmptyString.
Proof. intros H. simpl. rewrite H. reflexivity. Qed.

Lemma trimEnd_cons_keep c s :
  trimEnd s <> EmptyString -> trimEnd (String c s) = String c (trimEnd s).
Proof. intros H. simpl. destruct (trimEnd s); [contradiction | reflexivity]. Qed.

Lemma trimEnd_idem s : trimEnd (trimEnd s) = trimEnd s.
Proof.
  induction s as [|c s IH]; [reflexivity |].
  destruct (trimEnd s) as [|a r] eqn:Es.
  - rewrite (trimEnd_cons_blank c s Es).
    destruct (isWhiteSpace c) eqn:W; [reflexivity |].
    simpl. rewrite W. reflexivity.
  - rewrite trimEnd_cons_keep by (rewrite Es; discriminate).
    rewrite Es in *. rewrite trimEnd_cons_keep by (rewrite IH; discriminate).
    rewrite IH. reflexivity.
Qed.

Lemma trimEnd_tail c s : trimEnd (String c s) = String c s -> trimEnd s = s.
Proof.
  simpl. destruct (trimEnd s) as [|a r] eqn:Es.
  - destruct (isWhiteSpace c); [discriminate |].
    intros H. injection H as H. now subst s.
  - intros H. injection H as H. exact H.
Qed.

Lemma trimEnd_slice s n : trimEnd s = s -> trimEnd (slice s n) = slice s n.
Proof.
  revert s. induction n as [|n IH]; intros s H; destruct s as [|c s]; simpl; auto.
  apply IH. exact (trimEnd_tail c s H).
Qed.

Lemma trimStart_clean s : headClean s = true -> trimStart s = s.
Proof.
  destruct s as [|c s]; simpl; [reflexivity |].
  destruct (isWhiteSpace c); [discriminate | reflexivity].
Qed.

Lemma headClean_trimStart s : headClean (trimStart s) = true.
Proof.
  induction s as [|c s IH]; simpl; [reflexivity |].
  destruct (isWhiteSpace c) eqn:W; [exact IH |]. simpl. now rewrite W.
Qed.

Lemma headClean_trimEnd s : headClean s = true -> headClean (trimEnd s) = true.
Proof.
  destruct s as [|c s]; simpl; [reflexivity |].
  destruct (trimEnd s); destruct (isWhiteSpace c) eqn:W; simpl;
    try rewrite W; intros H; try discriminate H; reflexivity.
Qed.

Lemma trim_clean s : headClean s = true -> trimEnd s = s -> trim s = s.
Proof. intros H1 H2. unfold trim. now rewrite (trimStart_clean s H1). Qed.

Lemma trim_shape s : headClean (trim s) = true /\ trimEnd (trim s) = trim s.
Proof.
  unfold trim. split.
  - apply headClean_trimEnd, headClean_trimStart.
  - apply trimEnd_idem.
Qed.

Lemma trim_idem s : trim (trim s) = trim s.
Proof. destruct (trim_shape s). now apply trim_clean. Qed.

Lemma toLowerCase_idem s : toLowerCase (toLowerCase s) = toLowerCase s.
Proof.
  induction s as [|c s IH]; simpl; [reflexivity |].
  now rewrite lowerChar_idem, IH.
Qed.

Lemma toLowerCase_slice s n : toLowerCase (slice s n) = slice (toLowerCase s) n.
Proof.
  revert s. induction n as [|n IH]; intros [|c s]; simpl; auto.
Qed.

Lemma trimEnd_toLowerCase s : trimEnd (toLowerCase s) = toLowerCase (trimEnd s).
Proof.
  induction s as [|c s IH]; simpl; [reflexivity |].
  rewrite IH. destruct (trimEnd s); simpl; [| reflexivity].
  rewrite isWhiteSpace_lowerChar. now destruct (isWhiteSpace c).
Qed.

Lemma headClean_toLowerCase s : headClean (toLowerCase s) = headClean s.
Proof. destruct s; simpl; [reflexivity |]. now rewrite isWhiteSpace_lowerChar. Qed.

Lemma length_trimStart s : String.length (trimStart s) <= String.length s.
Proof.
  induction s as [|c s IH]; simpl; [lia |].
  destruct (isWhiteSpace c); simpl; lia.
Qed.

Lemma length_trimEnd s : String.length (trimEnd s) <= String.length s.
Proof.
  induction s as [|c s IH]; simpl; [lia |].
  destruct (trimEnd s); [destruct (isWhiteSpace c) |]; simpl in *; lia.
Qed.

Lemma length_toLowerCase s : String.length (toLowerCase s) = String.length s.
Proof. induction s; simpl; congruence. Qed.

Lemma length_slice s n : String.length (slice s n) <= String.length s.
Proof.
  revert s. induction n as [|n IH]; intros [|c s]; simpl; try lia.
  specialize (IH s). lia.
Qed.

Lemma normalizeDomainSuffix_strip x :
  normalizeDomainSuffix x = strip (toLowerCase (trim x)).
Proof. reflexivity. Qed.

Lemma strip_markers v : strip v = stripMarkers v.
Proof.
  destruct v as [|a r]; [reflexivity |].
  each_ascii a; try reflexivity.
  destruct r as [|b r]; [reflexivity |].
  each_ascii b; try reflexivity.
  destruct r as [|c r]; [reflexivity |].
  each_ascii c; reflexivity.
Qed.

Lemma strip_length v : String.length (strip v) <= String.length v.
Proof.
  unfold strip.
  destruct (startsWith v "*.").
  - pose proof (length_slice v 2).
    destruct (startsWith (slice v 2) ".").
    + pose proof (length_slice (slice v 2) 1). lia.
    + lia.
  - destruct (startsWith v "."); [apply length_slice | lia].
Qed.

Lemma strip_shape v :
  toLowerCase v = v -> trimEnd v = v ->
  toLowerCase (strip v) = strip v /\ trimEnd (strip v) = strip v.
Proof.
  intros L T. unfold strip.
  assert (K : forall n, toLowerCase (slice v n) = slice v n /\
                        trimEnd (slice v n) = slice v n).
  { intros n. split; [now rewrite toLowerCase_slice, L | now apply trimEnd_slice]. }
  assert (K2 : forall n m, toLowerCase (slice (slice v n) m) = slice (slice v n) m /\
                           trimEnd (slice (slice v n) m) = slice (slice v n) m).
  { intros n m. destruct (K n) as [A B].
    split; [now rewrite toLowerCase_slice, A | now apply trimEnd_slice]. }
  destruct (startsWith v "*.").
  - destruct (startsWith (slice v 2) "."); [apply K2 | apply K].
  - destruct (startsWith v "."); [apply K | now split].
Qed.

Lemma normalizeDomainSuffix_shape x :
  toLowerCase (normalizeDomainSuffix x) = normalizeDomainSuffix x /\
  trimEnd (normalizeDomainSuffix x) = normalizeDomainSuffix x.
Proof.
  rewrite normalizeDomainSuffix_strip. apply strip_shape.
  - apply toLowerCase_idem.
  - rewrite trimEnd_toLowerCase. now rewrite (proj2 (trim_shape x)).
Qed.

Lemma settled_fixed y :
  toLowerCase y = y -> trimEnd y = y ->
  (normalizeDomainSuffix y = y <-> settled y = true).
Proof.
  intros L T. rewrite normalizeDomainSuffix_strip.
  destruct y as [|c r]; [split; reflexivity |].
  destruct (isWhiteSpace c) eqn:W.
  - (* leading whitespace: the trim shortens the string *)
    split.
    + intros H. exfalso.
      assert (String.length (strip (toLowerCase (trim (String c r)))) <= String.length r).
      { etransitivity; [apply strip_length |].
        rewrite length_toLowerCase. unfold trim.
        etransitivity; [apply length_trimEnd |].
        simpl. rewrite W. apply length_trimStart. }
      rewrite H in H0. simpl in H0. lia.
    + unfold settled. rewrite W. discriminate.
  - assert (Tr : trim (String c r) = String c r).
    { apply trim_clean; [simpl; now rewrite W | exact T]. }
    rewrite Tr, L.
    unfold settled. rewrite W.
    destruct (Ascii.eqb c ".") eqn:D.
    + apply Ascii.eqb_eq in D. subst c. unfold strip. simpl. split; [| discriminate].
      intros H. exfalso. apply (f_equal String.length) in H. simpl in H. lia.
    + destruct (startsWith (String c r) "*.") eqn:S.
      * split; [| discriminate]. intros H. exfalso.
        unfold strip in H. rewrite S in H.
        assert (String.length (slice (String c r) 2) < String.length (String c r)).
        { destruct r as [|b r]; simpl in S |- *;
            [rewrite andb_false_r in S; discriminate S | lia]. }
        destruct (startsWith (slice (String c r) 2) ".").
        -- pose proof (length_slice (slice (String c r) 2) 1).
           rewrite H in H1. lia.
        -- rewrite H in H0. lia.
      * split; [reflexivity |]. intros _.
        unfold strip. rewrite S. simpl. rewrite D. reflexivity.
Qed.

(** ** normalizeDomainSuffix *)

(** C3, as stated, fails: after a wildcard prefix the program also strips a
    dot, where the claimed contract ("else") keeps it. *)
Lemma normalizeDomainSuffix_else_counterexample :
  normalizeDomainSuffix "*..example.com" = "example.com" /\
  normalizeDomainSuffix_claimed "*..example.com" = ".example.com".
Proof. split; reflexivity. Qed.

(** C3 (amended): [normalizeDomainSuffix] trims, lower-cases, strips a
    leading wildcard prefix when there is one, and then strips one leading
    dot when there is one, also the dot a stripped wildcard uncovers; it
    agrees with the claimed contract on every token whose trimmed lower-case
    form does not begin with a wildcard prefix followed by a dot. *)
Theorem normalizeDomainSuffix_contract :
  (forall token,
     normalizeDomainSuffix token = stripMarkers (toLowerCase (trim token))) /\
  (forall token,
     startsWith (toLowerCase (trim token)) "*.." = false ->
     normalizeDomainSuffix token = normalizeDomainSuffix_claimed token) /\
  normalizeDomainSuffix "*.Example.COM " = "example.com" /\
  normalizeDomainSuffix ".example.com" = "example.com".
Proof.
  split; [| split; [| split; reflexivity]].
  - intros token. rewrite normalizeDomainSuffix_strip. apply strip_markers.
  - intros token H.
    unfold normalizeDomainSuffix, normalizeDomainSuffix_claimed.
    destruct (startsWith (toLowerCase (trim token)) "*.") eqn:S; [| reflexivity].
    destruct (toLowerCase (trim token)) as [|a [|b [|c r]]]; simpl in *;
      try discriminate S; try reflexivity;
      try (rewrite andb_false_r in S; discriminate S).
    destruct (Ascii.eqb a "*"); [| discriminate S].
    destruct (Ascii.eqb b "."); [| discriminate S].
    destruct (Ascii.eqb c "."); [discriminate H | reflexivity].
Qed.

Lemma normalizeDomainSuffix_contract_witness :
  normalizeDomainSuffix " *.Example.COM" = normalizeDomainSuffix_claimed " *.Example.COM".
Proof.
  apply (proj1 (proj2 normalizeDomainSuffix_contract)). reflexivity.
Defined.

(** C9, as stated, fails: a second normalisation strips a second dot. *)
Lemma normalizeDomainSuffix_idempotence_counterexample :
  normalizeDomainSuffix "..example.com" = ".example.com" /\
  normalizeDomainSuffix (normalizeDomainSuffix "..example.com") = "example.com".
Proof. split; reflexivity. Qed.

(** C9 (amended): normalising a normalised suffix again changes nothing
    exactly when the normalised suffix begins with no whitespace, no dot and
    no wildcard prefix. *)
Theorem normalizeDomainSuffix_idempotent_when_settled :
  forall x,
    normalizeDomainSuffix (normalizeDomainSuffix x) = normalizeDomainSuffix x <->
    settled (normalizeDomainSuffix x) = true.
Proof.
  intros x. destruct (normalizeDomainSuffix_shape x) as [L T].
  now apply settled_fixed.
Qed.

Lemma normalizeDomainSuffix_idempotent_witness :
  normalizeDomainSuffix (normalizeDomainSuffix "*.Example.COM ") =
  normalizeDomainSuffix "*.Example.COM ".
Proof.
  apply (proj2 (normalizeDomainSuffix_idempotent_when_settled "*.Example.COM ")).
  reflexivity.
Defined.

Lemma every_In q s :
  every q s = true <-> forall c, In c (chars s) -> q c = true.
Proof.
  induction s as [|a s IH]; simpl.
  - split; [intros _ c [] | reflexivity].
  - rewrite andb_true_iff, IH. split.
    + intros [Ha Hs] c [<- | Hc]; auto.
    + intros H. split; [apply H; now left | intros c Hc; apply H; now right].
Qed.

Lemma every_impl (q q' : ascii -> bool) s :
  (forall c, q c = true -> q' c = true) -> every q s = true -> every q' s = true.
Proof.
  intros Hq. rewrite !every_In. intros H c Hc. apply Hq, H, Hc.
Qed.

Lemma includes_char s c : includes s (String c EmptyString) = true <-> In c (chars s).
Proof.
  induction s as [|a s IH]; simpl.
  - split; [discriminate | intros []].
  - rewrite orb_true_iff, IH, andb_true_r, Ascii.eqb_eq. reflexivity.
Qed.

Lemma chars_app s t : chars (s ++ t) = (chars s ++ chars t)%list.
Proof. induction s as [|a s IH]; simpl; [reflexivity | now rewrite <- IH]. Qed.

Lemma nonEmpty_In s : nonEmpty s = true <-> exists c, In c (chars s).
Proof.
  destruct s as [|a s]; simpl; split; try discriminate.
  - intros [c []].
  - intros _. exists a. now left.
  - reflexivity.
Qed.

Lemma N_leb_0 n : (0 <=? n)%N = true.
Proof. apply N.leb_le. lia. Qed.

(** ** The classifier *)

Example Number_samples :
  Number "255" = 255%N /\ Number "0032" = 32%N /\ Number "" = 0%N /\
  Number "4294967296" = 4294967296%N.
Proof. repeat split; reflexivity. Qed.

Lemma octetCheck_decimalOctet p : octetCheck p = true <-> decimalOctet p.
Proof.
  unfold octetCheck, decimalOctet, testDigits.
  destruct p as [|a p].
  - simpl. split; [discriminate | intros [H _]; now destruct H].
  - change (nonEmpty (String a p)) with true. rewrite andb_true_l.
    destruct (every isDigit (String a p)) eqn:Ed; cbn [negb].
    + rewrite N_leb_0, andb_true_l, N.leb_le. split.
      * intros H. split; [discriminate | split; [| exact H]].
        intros c Hc. apply isDigit_chars.
        exact (proj1 (every_In isDigit _) Ed c Hc).
      * now intros (_ & _ & H).
    + split; [discriminate |]. intros (_ & H & _).
      assert (every isDigit (String a p) = true); [| congruence].
      apply every_In. intros c Hc. apply isDigit_chars, H, Hc.
Qed.

Lemma split_not_nil s sep : split s sep <> [].
Proof.
  destruct s as [|c s]; simpl; [discriminate |].
  destruct (Ascii.eqb c sep); [discriminate |].
  destruct (split s sep); discriminate.
Qed.

Lemma joinWith_split s sep : joinWith sep (split s sep) = s.
Proof.
  induction s as [|c s IH]; [reflexivity |].
  pose proof (split_not_nil s sep) as Hn.
  simpl. destruct (split s sep) as [|p ps] eqn:Es; [now destruct Hn |].
  destruct (Ascii.eqb c sep) eqn:Ec.
  - apply Ascii.eqb_eq in Ec. subst c.
    change (joinWith sep (EmptyString :: p :: ps))
      with (String sep (joinWith sep (p :: ps))).
    now rewrite IH.
  - destruct ps as [|q ps].
    + simpl in *. now subst s.
    + change (joinWith sep (String c p :: q :: ps))
        with (String c (joinWith sep (p :: q :: ps))).
      now rewrite IH.
Qed.

Lemma split_clean s sep :
  every (fun c => negb (Ascii.eqb c sep)) s = true -> split s sep = [s].
Proof.
  induction s as [|c s IH]; simpl; [reflexivity |].
  intros H. apply andb_true_iff in H as [Hc Hs].
  apply negb_true_iff in Hc. rewrite Hc. now rewrite (IH Hs).
Qed.

Lemma split_app_sep s r sep :
  every (fun c => negb (Ascii.eqb c sep)) s = true ->
  split (s ++ String sep r) sep = s :: split r sep.
Proof.
  induction s as [|a s IH]; simpl.
  - intros _. now rewrite Ascii.eqb_refl.
  - intros H. apply andb_true_iff in H as [Ha Hs].
    apply negb_true_iff in Ha. rewrite Ha. now rewrite (IH Hs).
Qed.

Lemma decimalOctet_no_dot p :
  decimalOctet p -> every (fun c => negb (Ascii.eqb c ".")) p = true.
Proof.
  intros (_ & H & _). apply every_In. intros c Hc.
  apply H in Hc. simpl in Hc.
  repeat (destruct Hc as [Hc | Hc]; [subst c; reflexivity |]). destruct Hc.
Qed.

Lemma isIPv4_split token :
  isIPv4 token = true <->
  exists a b c d,
    split token "."%char = [a; b; c; d] /\
    decimalOctet a /\ decimalOctet b /\ decimalOctet c /\ decimalOctet d.
Proof.
  unfold isIPv4. fold octetCheck.
  destruct (split token ".") as [|a [|b [|c [|d [|e l]]]]] eqn:Es; simpl;
    try (split; [discriminate | intros (a' & b' & c' & d' & H & _); discriminate H]).
  rewrite andb_true_r, !andb_true_iff, !octetCheck_decimalOctet. split.
  - intros (Ha & Hb & Hc & Hd). now exists a, b, c, d.
  - intros (a' & b' & c' & d' & H & Ha & Hb & Hc & Hd).
    injection H as -> -> -> ->. auto.
Qed.

Lemma isIPv4_shape token : isIPv4 token = true <-> ipv4Shape token.
Proof.
  rewrite isIPv4_split. unfold ipv4Shape.
  split; intros (a & b & c & d & H & Ha & Hb & Hc & Hd); exists a, b, c, d;
    (split; [| exact (conj Ha (conj Hb (conj Hc Hd)))]).
  - rewrite <- (joinWith_split token "."), H. reflexivity.
  - subst token.
    change (a ++ "." ++ b ++ "." ++ c ++ "." ++ d)
      with (a ++ String "." (b ++ String "." (c ++ String "." d))).
    rewrite !split_app_sep by now apply decimalOctet_no_dot.
    rewrite split_clean by now apply decimalOctet_no_dot.
    reflexivity.
Qed.

Lemma isIPv6_shape token : isIPv6 token = true <-> ipv6Shape token.
Proof.
  unfold isIPv6, ipv6Shape, testHexColon.
  rewrite !andb_true_iff, includes_char, every_In, nonEmpty_In. split.
  - intros (Hc & _ & H). split; [exact Hc |].
    intros c Hin. apply hexColon_chars, H, Hin.
  - intros (Hc & H). split; [exact Hc | split].
    + now exists ":"%char.
    + intros c Hin. apply hexColon_chars, H, Hin.
Qed.

(** C2: the classifier answers IPv4 exactly on the tokens that split on the
    dot into four parts, each a non-empty string of decimal digits of value
    at most 255 (leading zeros included); IPv6 exactly on the other tokens
    that contain a colon and consist of hexadecimal digits and colons only;
    NotIp on the rest. *)
Theorem classifyIp_contract :
  (forall token,
     (classifyIp token = IPv4 <-> ipv4Shape token) /\
     (classifyIp token = IPv6 <-> ~ ipv4Shape token /\ ipv6Shape token) /\
     (classifyIp token = NotIp <-> ~ ipv4Shape token /\ ~ ipv6Shape token)) /\
  classifyIp "1.2.3.4" = IPv4 /\
  classifyIp "300.1.1.1" = NotIp /\
  classifyIp "::1" = IPv6 /\
  classifyIp "example.com" = NotIp /\
  classifyIp "010.001.0.0255" = IPv4.
Proof.
  split; [| repeat split; reflexivity].
  intros token. unfold classifyIp.
  assert (D4 : isIPv4 token = true /\ ipv4Shape token \/
               isIPv4 token = false /\ ~ ipv4Shape token).
  { pose proof (isIPv4_shape token) as H. destruct (isIPv4 token).
    - left. split; [reflexivity | now apply H].
    - right. split; [reflexivity |]. intros K. apply H in K. discriminate K. }
  assert (D6 : isIPv6 token = true /\ ipv6Shape token \/
               isIPv6 token = false /\ ~ ipv6Shape token).
  { pose proof (isIPv6_shape token) as H. destruct (isIPv6 token).
    - left. split; [reflexivity | now apply H].
    - right. split; [reflexivity |]. intros K. apply H in K. discriminate K. }
  destruct D4 as [[E4 S4] | [E4 N4]]; destruct D6 as [[E6 S6] | [E6 N6]];
    rewrite E4; try rewrite E6; intuition congruence.
Qed.

(** ** normalizeCidr *)

(** C4: [normalizeCidr] trims; a trimmed token with a slash is returned as
    it is; otherwise "/32" is appended to an IPv4 address, "/128" to an
    IPv6 address, and any other token is returned trimmed. *)
Theorem normalizeCidr_contract :
  (forall token,
     let v := trim token in
     (In "/"%char (chars v) -> normalizeCidr token = v) /\
     (~ In "/"%char (chars v) ->
      normalizeCidr token =
      match classifyIp v with
      | IPv4 => v ++ "/32"
      | IPv6 => v ++ "/128"
      | NotIp => v
      end)) /\
  normalizeCidr "1.2.3.4" = "1.2.3.4/32" /\
  normalizeCidr "::1" = "::1/128" /\
  normalizeCidr "10.0.0.0/8" = "10.0.0.0/8".
Proof.
  split; [| repeat split; reflexivity].
  intros token v. unfold normalizeCidr, classifyIp. fold v.
  pose proof (includes_char v "/") as Hs.
  destruct (includes v "/") eqn:Ei.
  - split; [reflexivity |]. intros Hn. exfalso. apply Hn, Hs. reflexivity.
  - split.
    + intros Hin. apply Hs in Hin. discriminate Hin.
    + intros _. destruct (isIPv4 v); [reflexivity |].
      destruct (isIPv6 v); reflexivity.
Qed.

Lemma normalizeCidr_contract_witness :
  normalizeCidr " 10.1.2.3 " = "10.1.2.3/32" /\
  normalizeCidr "fe80::1/64 " = "fe80::1/64".
Proof.
  split.
  - apply (proj2 (proj1 normalizeCidr_contract " 10.1.2.3 ")).
    vm_compute. intuition discriminate.
  - apply (proj1 (proj1 normalizeCidr_contract "fe80::1/64 ")).
    vm_compute. tauto.
Defined.

(** ** isIpOrCidr *)

Lemma split_cutFirst s sep :
  split s sep =
  fst (cutFirst s sep) ::
  match snd (cutFirst s sep) with
  | None => []
  | Some r => split r sep
  end.
Proof.
  induction s as [|c s IH]; simpl; [reflexivity |].
  destruct (Ascii.eqb c sep); [reflexivity |].
  rewrite IH. destruct (cutFirst s sep) as [a p]. reflexivity.
Qed.

Lemma occurrences_cons sep c s :
  occurrences sep (String c s) =
  if Ascii.eqb c sep then S (occurrences sep s) else occurrences sep s.
Proof.
  unfold occurrences. simpl.
  destruct (ascii_dec c sep) as [-> | Hn].
  - now rewrite Ascii.eqb_refl.
  - destruct (Ascii.eqb c sep) eqn:E; [| reflexivity].
    apply Ascii.eqb_eq in E. contradiction.
Qed.

Lemma split_without_sep s sep : occurrences sep s = 0 -> split s sep = [s].
Proof.
  induction s as [|c s IH]; [reflexivity |].
  rewrite occurrences_cons. simpl.
  destruct (Ascii.eqb c sep); [discriminate |].
  intros H. now rewrite (IH H).
Qed.

Lemma occurrences_cutFirst s sep r :
  snd (cutFirst s sep) = Some r -> occurrences sep s = S (occurrences sep r).
Proof.
  induction s as [|c s IH]; simpl; [discriminate |].
  rewrite occurrences_cons.
  destruct (Ascii.eqb c sep).
  - simpl. now intros [= ->].
  - destruct (cutFirst s sep) as [a p]. simpl in *. exact IH.
Qed.

Lemma splitLimit_cutFirst s sep :
  occurrences sep s <= 1 ->
  splitLimit s sep 2 =
  fst (cutFirst s sep) ::
  match snd (cutFirst s sep) with
  | None => []
  | Some r => [r]
  end.
Proof.
  intros H. unfold splitLimit. rewrite split_cutFirst.
  destruct (snd (cutFirst s sep)) as [r|] eqn:Ec; [| reflexivity].
  apply occurrences_cutFirst in Ec.
  rewrite split_without_sep by lia. reflexivity.
Qed.

(** C1, as stated, fails in two ways: the program trims the token first,
    and it reads as the prefix only what stands between the first and the
    second slash. *)
Lemma isIpOrCidr_counterexample :
  (isIpOrCidr " 10.0.0.0/8" = true /\ isIpOrCidr_claimed " 10.0.0.0/8" = false) /\
  (isIpOrCidr "10.0.0.0/8/x" = true /\ isIpOrCidr_claimed "10.0.0.0/8/x" = false).
Proof. repeat split; reflexivity. Qed.

(** C1 (amended): [isIpOrCidr] trims the token; on a trimmed token with at
    most one slash it cuts at the slash into an address and a prefix,
    answers false when the address is empty or the prefix is present,
    non-empty and not all decimal digits, and otherwise answers true
    exactly when the address is IPv4 and the prefix is absent or of value
    in [0,32] (the empty prefix has value 0), or the address is IPv6 and
    the prefix is absent or of value in [0,128]. *)
Theorem isIpOrCidr_contract :
  (forall token,
     occurrences "/" (trim token) <= 1 ->
     isIpOrCidr token = isIpOrCidr_claimed (trim token)) /\
  isIpOrCidr "10.0.0.0/8" = true /\
  isIpOrCidr "10.0.0.0/33" = false /\
  isIpOrCidr "example.com" = false /\
  isIpOrCidr "::1/129" = false.
Proof.
  split; [| repeat split; reflexivity].
  intros token H. unfold isIpOrCidr, isIpOrCidr_claimed, classifyIp.
  rewrite (splitLimit_cutFirst _ _ H).
  destruct (cutFirst (trim token) "/") as [address prefixStr]. simpl fst. simpl snd.
  destruct prefixStr as [p|]; cbn [nth nth_error].
  - destruct (nonEmpty address); [| reflexivity]. cbn [negb].
    destruct (nonEmpty p && negb (testDigits p)); [reflexivity |].
    destruct (isIPv4 address); [reflexivity |].
    destruct (isIPv6 address); reflexivity.
  - destruct (nonEmpty address); [| reflexivity]. cbn [negb].
    destruct (isIPv4 address); [reflexivity |].
    destruct (isIPv6 address); reflexivity.
Qed.

Lemma isIpOrCidr_contract_witness :
  isIpOrCidr " 192.168.0.0/16 " = isIpOrCidr_claimed (trim " 192.168.0.0/16 ").
Proof.
  apply (proj1 isIpOrCidr_contract " 192.168.0.0/16 ").
  vm_compute. apply le_n.
Defined.

(** ** Tokens with a trailing slash *)

Lemma split_every q s sep :
  forallb (every q) (split s sep) = true ->
  every (fun c => q c || Ascii.eqb c sep) s = true.
Proof.
  induction s as [|c s IH]; [reflexivity |].
  simpl. destruct (Ascii.eqb c sep) eqn:Ec.
  - simpl. intros H. rewrite orb_true_r. simpl. exact (IH H).
  - rewrite orb_false_r.
    destruct (split s sep) as [|p ps]; simpl in *.
    + rewrite !andb_true_r. intros ->. simpl. now apply IH.
    + intros H. apply andb_true_iff in H as [H1 H2].
      apply andb_true_iff in H1 as [Hc Hp].
      rewrite Hc. simpl. apply IH. now rewrite Hp, H2.
Qed.

Lemma classified_chars addr :
  classifyIp addr <> NotIp ->
  nonEmpty addr = true /\
  every (fun c => negb (isWhiteSpace c) && negb (Ascii.eqb c "/")) addr = true.
Proof.
  unfold classifyIp. destruct (isIPv4 addr) eqn:E4; [intros _ |].
  - unfold isIPv4 in E4.
    destruct (length (split addr ".") =? 4)%nat eqn:El; [| discriminate E4].
    simpl in E4. split.
    + destruct addr; [discriminate El | reflexivity].
    + apply every_impl with (q := fun c => isDigit c || Ascii.eqb c ".").
      * intros c Hc. now rewrite (digitDot_not_space c Hc), (digitDot_not_slash c Hc).
      * apply split_every. apply forallb_forall. intros p Hp.
        apply (proj1 (forallb_forall _ _) E4) in Hp.
        unfold testDigits in Hp.
        destruct (every isDigit p); [reflexivity |].
        rewrite andb_false_r in Hp. discriminate Hp.
  - destruct (isIPv6 addr) eqn:E6; [intros _ | intros H; now destruct H].
    unfold isIPv6, testHexColon in E6.
    apply andb_true_iff in E6 as [_ E6]. apply andb_true_iff in E6 as [Hn He].
    split; [exact Hn |].
    apply every_impl with (2 := He).
    intros c Hc. now rewrite (hexColon_not_space c Hc), (hexColon_not_slash c Hc).
Qed.

Lemma trimEnd_app_last s c :
  isWhiteSpace c = false -> trimEnd (s ++ String c EmptyString) = s ++ String c EmptyString.
Proof.
  intros W. induction s as [|a s IH].
  - simpl. now rewrite W.
  - change (String a s ++ String c EmptyString) with (String a (s ++ String c EmptyString)).
    rewrite trimEnd_cons_keep; rewrite IH; [reflexivity |].
    destruct s; discriminate.
Qed.

Lemma includes_app_sep s c : includes (s ++ String c EmptyString) (String c EmptyString) = true.
Proof.
  apply includes_char. rewrite chars_app. apply in_or_app. right. now left.
Qed.

Lemma trailing_slash_trim addr :
  classifyIp addr <> NotIp -> trim (addr ++ "/") = addr ++ "/".
Proof.
  intros H. destruct (classified_chars addr H) as [Hn He].
  apply trim_clean.
  - destruct addr as [|a addr]; [discriminate Hn |].
    simpl in *. apply andb_true_iff in He as [Ha _].
    now apply andb_true_iff in Ha as [Ha _].
  - now apply trimEnd_app_last.
Qed.

Lemma trailing_slash_accepted addr :
  classifyIp addr <> NotIp -> isIpOrCidr (addr ++ "/") = true.
Proof.
  intros H. unfold isIpOrCidr. rewrite (trailing_slash_trim addr H).
  destruct (classified_chars addr H) as [Hn He].
  unfold splitLimit. rewrite split_app_sep.
  2:{ apply every_impl with (2 := He). intros c Hc.
      now apply andb_true_iff in Hc as [_ Hc]. }
  simpl. rewrite Hn. simpl.
  unfold classifyIp in H.
  destruct (isIPv4 addr); [reflexivity |].
  destruct (isIPv6 addr); [reflexivity | now destruct H].
Qed.

Lemma trailing_slash_kept addr :
  classifyIp addr <> NotIp -> normalizeCidr (addr ++ "/") = addr ++ "/".
Proof.
  intros H. unfold normalizeCidr. rewrite (trailing_slash_trim addr H).
  now rewrite includes_app_sep.
Qed.

(** ** The [Map] and the accumulators *)

Lemma mapGet_mapSet_same k d m : mapGet k (mapSet k d m) = Some d.
Proof.
  induction m as [|[k' d'] m IH]; simpl.
  - now rewrite String.eqb_refl.
  - destruct (String.eqb k' k) eqn:Ek; simpl.
    + now rewrite String.eqb_refl.
    + now rewrite Ek.
Qed.

Lemma mapGet_mapSet_other k k' d m :
  k <> k' -> mapGet k' (mapSet k d m) = mapGet k' m.
Proof.
  intros Hn. induction m as [|[k0 d0] m IH]; simpl.
  - destruct (String.eqb k k') eqn:E; [| reflexivity].
    apply String.eqb_eq in E. contradiction.
  - destruct (String.eqb k0 k) eqn:Ek; simpl.
    + apply String.eqb_eq in Ek. subst k0.
      destruct (String.eqb k k') eqn:E; [| reflexivity].
      apply String.eqb_eq in E. contradiction.
    + now rewrite IH.
Qed.

Lemma mapSet_same k d m : mapGet k m = Some d -> mapSet k d m = m.
Proof.
  induction m as [|[k' d'] m IH]; simpl; [discriminate |].
  destruct (String.eqb k' k) eqn:Ek.
  - apply String.eqb_eq in Ek. subst k'. now intros [= ->].
  - intros H. now rewrite (IH H).
Qed.

Lemma mapSet_mapSet k d d' m : mapSet k d' (mapSet k d m) = mapSet k d' m.
Proof.
  induction m as [|[k' d0] m IH]; simpl.
  - now rewrite String.eqb_refl.
  - destruct (String.eqb k' k) eqn:Ek; simpl.
    + now rewrite String.eqb_refl.
    + now rewrite Ek, IH.
Qed.

Lemma keys_mapSet k d m :
  map fst (mapSet k d m) =
  if mapHas k m then map fst m else (map fst m ++ [k])%list.
Proof.
  unfold mapHas. induction m as [|[k' d'] m IH]; simpl; [reflexivity |].
  destruct (String.eqb k' k) eqn:Ek; simpl.
  - apply String.eqb_eq in Ek. now subst k'.
  - rewrite IH. now destruct (mapGet k m).
Qed.

Lemma mapGet_In k m : mapGet k m <> None <-> In k (map fst m).
Proof.
  induction m as [|[k' d'] m IH]; simpl.
  - split; [intros H; now destruct H | intros []].
  - destruct (String.eqb k' k) eqn:Ek.
    + apply String.eqb_eq in Ek. split; [now left | discriminate].
    + rewrite IH. split; [now right |].
      intros [H | H]; [| exact H].
      subst k'. rewrite String.eqb_refl in Ek. discriminate Ek.
Qed.

Lemma world_eta w : {| outbounds := outbounds w; trace := trace w |} = w.
Proof. now destruct w. Qed.

Lemma withData_same key d w : mapGet key (outbounds w) = Some d -> withData key d w = w.
Proof.
  intros H. unfold withData. rewrite (mapSet_same _ _ _ H). apply world_eta.
Qed.

Lemma withData_withData key d d' w :
  withData key d' (withData key d w) = withData key d' w.
Proof. unfold withData. simpl. now rewrite mapSet_mapSet. Qed.

Lemma mapGet_withData key d w : mapGet key (outbounds (withData key d w)) = Some d.
Proof. apply mapGet_mapSet_same. Qed.

Lemma mutate_at key f w d :
  mapGet key (outbounds w) = Some d ->
  mutate key f w = (Return tt, withData key (f d) w).
Proof. intros H. unfold mutate, withData. now rewrite H. Qed.

(** ** Trimming twice *)

Lemma isIpOrCidr_trim x : isIpOrCidr (trim x) = isIpOrCidr x.
Proof. unfold isIpOrCidr. now rewrite trim_idem. Qed.

Lemma normalizeCidr_trim x : normalizeCidr (trim x) = normalizeCidr x.
Proof. unfold normalizeCidr. now rewrite trim_idem. Qed.

Lemma normalizeDomainSuffix_trim x :
  normalizeDomainSuffix (trim x) = normalizeDomainSuffix x.
Proof. unfold normalizeDomainSuffix. now rewrite trim_idem. Qed.

(** ** The emitter *)

Section Emitter.

Variable E : Externals.

Lemma generateSrs_run name d out w :
  generateSrs E name d out w =
  (Return tt, {| outbounds := outbounds w; trace := trace w ++ srsTrace E name d out |}).
Proof.
  unfold srsTrace, generateSrs, bind, emit, log, emit.
  destruct (length (rulesOf d) =? 0)%nat; simpl.
  - now rewrite <- !app_assoc.
  - destruct (singBox E _ _); simpl; now rewrite <- !app_assoc.
Qed.

Lemma emitted_app t t' : emitted (t ++ t') = (emitted t ++ emitted t')%list.
Proof.
  induction t as [|e t IH]; simpl; [reflexivity |].
  destruct e; simpl; now rewrite IH.
Qed.

Lemma emitted_srsTrace name d out :
  emitted (srsTrace E name d out) = documentFor E name d out.
Proof.
  unfold srsTrace, documentFor, generateSrs, rulesOf, bind, emit, log, emit.
  destruct (domains d) as [|x xs], (subnets d) as [|y ys]; simpl;
    try reflexivity; destruct (singBox E _ _); reflexivity.
Qed.

(** C7: for every accumulator the emitter returns normally and leaves the
    accumulators alone; with no domain and no subnet it writes no document
    and logs the outbound as skipped; otherwise it writes one document of
    version 3 whose rules are a [domain_suffix] block, present exactly when
    there are domains, followed by an [ip_cidr] block, present exactly when
    there are subnets. *)
Theorem generateSrs_contract :
  forall name data out w,
    let r := generateSrs E name data out w in
    let jsonDir := join E out "json" in
    let srsDir := join E out "srs" in
    fst r = Return tt /\
    outbounds (snd r) = outbounds w /\
    match domains data, subnets data with
    | [], [] =>
        trace (snd r) =
        (trace w ++ [BunWrite (join E jsonDir ".gitkeep") "";
                     BunWrite (join E srsDir ".gitkeep") "";
                     ConsoleLog ("  Skipping " ++ name ++ ": no rules")])%list
    | ds, ss =>
        emitted (trace (snd r)) =
        (emitted (trace w) ++
         [(join E jsonDir (name ++ "-rule.json"),
           {| version := 3;
              ruleBlocks :=
                match ds with [] => [] | _ :: _ => [domain_suffix ds] end ++
                match ss with [] => [] | _ :: _ => [ip_cidr ss] end |})])%list
    end.
Proof.
  intros name data out w r jsonDir srsDir. subst r.
  rewrite generateSrs_run. simpl. split; [reflexivity | split; [reflexivity |]].
  pose proof (emitted_srsTrace name data out) as He.
  unfold documentFor in He.
  destruct (domains data) as [|x xs] eqn:Ed, (subnets data) as [|y ys] eqn:Es;
    try (rewrite emitted_app, He; reflexivity).
  unfold srsTrace, generateSrs, rulesOf, bind, emit, log, emit.
  rewrite Ed, Es. reflexivity.
Qed.

(** ** Mixed lists *)

Lemma readLines_outbounds source baseDir w :
  outbounds (snd (readLines E source baseDir w)) = outbounds w.
Proof.
  unfold readLines, bind, log, emit, throw, ret.
  destruct (startsWith source "http://" || startsWith source "https://"); simpl.
  - destruct (fetch E source) as [err | ok st body]; simpl; [reflexivity |].
    destruct ok; reflexivity.
  - destruct (fileText E _); reflexivity.
Qed.

Lemma addMixedEntry_route line key w d :
  mapGet key (outbounds w) = Some d ->
  addMixedEntry line key w =
  (Return tt, withData key (route (resolveMixedEntry line) d) w).
Proof.
  intros H. unfold addMixedEntry, resolveMixedEntry.
  rewrite isIpOrCidr_trim, normalizeCidr_trim, normalizeDomainSuffix_trim.
  destruct (nonEmpty (trim line)); cbn [negb].
  - destruct (isIpOrCidr line); unfold pushSubnets, pushDomains;
      now rewrite (mutate_at _ _ _ _ H).
  - simpl. now rewrite (withData_same _ _ _ H).
Qed.

Lemma forEach_addMixedEntry key lines : forall w d,
  mapGet key (outbounds w) = Some d ->
  forEach (fun line => addMixedEntry line key) lines w =
  (Return tt, withData key (routeAll lines d) w).
Proof.
  induction lines as [|line lines IH]; intros w d H; simpl.
  - unfold ret. now rewrite (withData_same _ _ _ H).
  - unfold bind. rewrite (addMixedEntry_route _ _ _ _ H).
    rewrite (IH _ _ (mapGet_withData _ _ _)).
    now rewrite withData_withData.
Qed.

(** C5: a list entry is trimmed; a blank entry does nothing; an entry that
    [isIpOrCidr] accepts goes to the subnets as its [normalizeCidr]; any
    other entry that starts with a scheme or contains a slash is loaded as
    a source and each of its lines is routed by the Mixed-Entry Resolver
    (a failed load throws); every remaining entry goes to the domains as
    its [normalizeDomainSuffix]. *)
Theorem list_entry_routing :
  forall key w data,
    mapGet key (outbounds w) = Some data ->
    (forall entry,
       let v := trim entry in
       (nonEmpty v = false -> processListEntry E key entry w = (Return tt, w)) /\
       (nonEmpty v = true -> isIpOrCidr entry = true ->
        processListEntry E key entry w =
        (Return tt, withData key (route (Some (Subnet (normalizeCidr entry))) data) w)) /\
       (nonEmpty v = true -> isIpOrCidr entry = false -> looksLikeSource v = true ->
        processListEntry E key entry w =
        match readLines E v (metaDir E) w with
        | (Return lines, w1) =>
            (Return tt,
             withData key
               (fold_left (fun acc line => route (resolveMixedEntry line) acc) lines data)
               w1)
        | (Throw err, w1) => (Throw err, w1)
        end) /\
       (nonEmpty v = true -> isIpOrCidr entry = false -> looksLikeSource v = false ->
        processListEntry E key entry w =
        (Return tt,
         withData key (route (Some (Domain (normalizeDomainSuffix entry))) data) w))) /\
    processListEntry E key "10.0.0.0/24" w =
    (Return tt,
     withData key {| domains := domains data;
                     subnets := subnets data ++ ["10.0.0.0/24"] |} w) /\
    processListEntry E key "sub.example.com" w =
    (Return tt,
     withData key {| domains := domains data ++ ["sub.example.com"];
                     subnets := subnets data |} w) /\
    processListEntry E key "./extra-list.txt" w =
    match readLines E "./extra-list.txt" (metaDir E) w with
    | (Return lines, w1) =>
        (Return tt,
         withData key
           (fold_left (fun acc line => route (resolveMixedEntry line) acc) lines data)
           w1)
    | (Throw err, w1) => (Throw err, w1)
    end.
Proof.
  intros key w data H.
  assert (Nested : forall v,
    (lines <- readLines E v (metaDir E) ;;
     forEach (fun line => addMixedEntry line key) lines) w =
    match readLines E v (metaDir E) w with
    | (Return lines, w1) => (Return tt, withData key (routeAll lines data) w1)
    | (Throw err, w1) => (Throw err, w1)
    end).
  { intros v. unfold bind at 1.
    pose proof (readLines_outbounds v (metaDir E) w) as Ho.
    destruct (readLines E v (metaDir E) w) as [[lines | err] w1]; [| reflexivity].
    simpl in Ho. apply forEach_addMixedEntry. now rewrite Ho. }
  split; [| split; [| split]].
  - intros entry v. subst v. unfold processListEntry.
    rewrite isIpOrCidr_trim, normalizeCidr_trim, normalizeDomainSuffix_trim.
    unfold looksLikeSource.
    repeat split.
    + intros ->. reflexivity.
    + intros -> ->. simpl. unfold pushSubnets. now rewrite (mutate_at _ _ _ _ H).
    + intros -> -> ->. simpl. apply Nested.
    + intros -> -> ->. simpl. unfold pushDomains. now rewrite (mutate_at _ _ _ _ H).
  - unfold processListEntry, pushSubnets. simpl. now rewrite (mutate_at _ _ _ _ H).
  - unfold processListEntry, pushDomains. simpl. now rewrite (mutate_at _ _ _ _ H).
  - unfold processListEntry. simpl. apply Nested.
Qed.

(** C10: a token made of an IPv4 or IPv6 address and one trailing slash is
    accepted by [isIpOrCidr], is returned unchanged by [normalizeCidr], and
    as a list entry or as a line of a nested list it is appended to the
    subnets with its trailing slash. *)
Theorem trailing_slash_routing :
  forall addr,
    classifyIp addr <> NotIp ->
    isIpOrCidr (addr ++ "/") = true /\
    normalizeCidr (addr ++ "/") = addr ++ "/" /\
    forall key w data,
      mapGet key (outbounds w) = Some data ->
      let data' := {| domains := domains data;
                      subnets := subnets data ++ [addr ++ "/"] |} in
      processListEntry E key (addr ++ "/") w = (Return tt, withData key data' w) /\
      addMixedEntry (addr ++ "/") key w = (Return tt, withData key data' w).
Proof.
  intros addr H.
  pose proof (trailing_slash_accepted addr H) as Ha.
  pose proof (trailing_slash_kept addr H) as Hk.
  pose proof (trailing_slash_trim addr H) as Ht.
  split; [exact Ha | split; [exact Hk |]].
  intros key w data Hg data'.
  assert (Hne : nonEmpty (addr ++ "/") = true) by (now destruct addr).
  split.
  - unfold processListEntry. rewrite Ht, Hne, Ha, Hk. simpl.
    unfold pushSubnets. now rewrite (mutate_at _ _ _ _ Hg).
  - unfold addMixedEntry. rewrite Ht, Hne, Ha, Hk. simpl.
    unfold pushSubnets. now rewrite (mutate_at _ _ _ _ Hg).
Qed.

End Emitter.

(** ** Deduplication *)

Lemma existsb_eqb_In x l : existsb (String.eqb x) l = true <-> In x l.
Proof.
  rewrite existsb_exists. split.
  - intros (y & Hy & Heq). apply String.eqb_eq in Heq. now subst.
  - intros H. exists x. split; [exact H | apply String.eqb_refl].
Qed.

Lemma setAdd_In x y acc : In x (setAdd acc y) <-> In x acc \/ x = y.
Proof.
  unfold setAdd. destruct (existsb (String.eqb y) acc) eqn:Ex.
  - apply existsb_eqb_In in Ex. split; [now left | now intros [H | ->]].
  - rewrite in_app_iff. simpl. intuition congruence.
Qed.

Lemma NoDup_snoc (l : list string) y : NoDup l -> ~ In y l -> NoDup (l ++ [y]).
Proof.
  induction 1 as [|a l Ha Hl IH]; simpl; intros Hy.
  - constructor; [intros [] | constructor].
  - constructor.
    + rewrite in_app_iff. simpl. intuition congruence.
    + apply IH. tauto.
Qed.

Lemma setAdd_NoDup y acc : NoDup acc -> NoDup (setAdd acc y).
Proof.
  intros H. unfold setAdd. destruct (existsb (String.eqb y) acc) eqn:Ex; [exact H |].
  apply NoDup_snoc; [exact H |]. intros Hin.
  apply existsb_eqb_In in Hin. congruence.
Qed.

Lemma fold_setAdd_In x l : forall acc,
  In x (fold_left setAdd l acc) <-> In x acc \/ In x l.
Proof.
  induction l as [|y l IH]; intros acc; simpl; [tauto |].
  rewrite IH, setAdd_In. intuition congruence.
Qed.

Lemma fold_setAdd_NoDup l : forall acc, NoDup acc -> NoDup (fold_left setAdd l acc).
Proof.
  induction l as [|y l IH]; intros acc H; simpl; [exact H |].
  apply IH, setAdd_NoDup, H.
Qed.

Lemma fold_setAdd_prefix l : forall acc,
  exists rest, fold_left setAdd l acc = (acc ++ rest)%list.
Proof.
  induction l as [|y l IH]; intros acc; simpl.
  - exists []. now rewrite app_nil_r.
  - destruct (IH (setAdd acc y)) as [rest Hr]. rewrite Hr.
    unfold setAdd. destruct (existsb (String.eqb y) acc).
    + now exists rest.
    + exists (y :: rest). now rewrite <- app_assoc.
Qed.

Lemma fold_setAdd_keep_first x l : forall acc,
  fold_left setAdd l (x :: acc) =
  x :: fold_left setAdd (filter (fun y => negb (String.eqb y x)) l) acc.
Proof.
  induction l as [|y l IH]; intros acc; simpl; [reflexivity |].
  unfold setAdd at 2. simpl existsb.
  destruct (String.eqb y x) eqn:Eyx; simpl.
  - apply IH.
  - rewrite <- IH. f_equal. unfold setAdd.
    now destruct (existsb (String.eqb y) acc).
Qed.

Lemma dedupe_In x l : In x (dedupe l) <-> In x l.
Proof. unfold dedupe. rewrite fold_setAdd_In. simpl. tauto. Qed.

Lemma dedupe_NoDup l : NoDup (dedupe l).
Proof. apply fold_setAdd_NoDup. constructor. Qed.

Lemma dedupe_first_occurrence l1 x l2 :
  ~ In x l1 ->
  exists rest, dedupe (l1 ++ x :: l2) = (dedupe l1 ++ x :: rest)%list.
Proof.
  intros Hn. unfold dedupe. rewrite fold_left_app. simpl.
  fold (dedupe l1).
  assert (Hs : setAdd (dedupe l1) x = (dedupe l1 ++ [x])%list).
  { unfold setAdd. destruct (existsb (String.eqb x) (dedupe l1)) eqn:Ex; [| reflexivity].
    apply existsb_eqb_In in Ex. apply (proj1 (dedupe_In x l1)) in Ex.
    contradiction. }
  rewrite Hs. destruct (fold_setAdd_prefix l2 (dedupe l1 ++ [x])) as [rest Hr].
  exists rest. rewrite Hr, <- app_assoc. reflexivity.
Qed.

Lemma dedupe_Forall (P : string -> Prop) l : Forall P l -> Forall P (dedupe l).
Proof.
  rewrite !Forall_forall. intros H x Hx. apply H, dedupe_In, Hx.
Qed.

Lemma finalize_normalized d : normalized d -> normalized (finalize d).
Proof. intros [Hd Hs]. split; simpl; now apply dedupe_Forall. Qed.

(** ** The run *)

Lemma preserves_ret {A} (a : A) : preserves (ret a).
Proof. intros w H. exact H. Qed.

Lemma preserves_throw {A} err : preserves (@throw A err).
Proof. intros w H. exact H. Qed.

Lemma preserves_bind {A B} (m : M A) (k : A -> M B) :
  preserves m -> (forall a, preserves (k a)) -> preserves (bind m k).
Proof.
  intros Hm Hk w H. unfold bind. specialize (Hm w H).
  destruct (m w) as [[a | err] w1]; simpl in *; [now apply Hk | exact Hm].
Qed.

Lemma preserves_log line : preserves (log line).
Proof.
  intros w (Hk & He & Hn). unfold log, emit. simpl.
  split; [exact Hk | split; [| exact Hn]].
  simpl. rewrite emitted_app, He. reflexivity.
Qed.

Lemma preserves_forEach {A} (body : A -> M unit) l :
  (forall x, preserves (body x)) -> preserves (forEach body l).
Proof.
  intros Hb. induction l as [|x l IH]; simpl.
  - apply preserves_ret.
  - apply preserves_bind; [apply Hb | intros _; exact IH].
Qed.

Lemma allNormalized_mapSet k d w :
  normalized d -> allNormalized w -> allNormalized (withData k d w).
Proof.
  intros Hd Hw key d'. unfold withData. simpl.
  destruct (string_dec k key) as [<- | Hne].
  - rewrite mapGet_mapSet_same. now intros [= <-].
  - rewrite mapGet_mapSet_other by exact Hne. apply Hw.
Qed.

Lemma preserves_mutate key f :
  (forall d, normalized d -> normalized (f d)) -> preserves (mutate key f).
Proof.
  intros Hf w (Hk & He & Hn). unfold mutate. simpl.
  destruct (mapGet key (outbounds w)) as [d|] eqn:Eg.
  - split; [| split; [exact He |]]; simpl.
    + unfold keysUnique. rewrite keys_mapSet. unfold mapHas. now rewrite Eg.
    + apply (allNormalized_mapSet key (f d) w); [| exact Hn].
      apply Hf. exact (Hn key d Eg).
  - rewrite world_eta. split; [exact Hk | split; [exact He | exact Hn]].
Qed.

Lemma preserves_pushDomains key tokens :
  preserves (pushDomains key (map normalizeDomainSuffix tokens)).
Proof.
  apply preserves_mutate. intros d [Hd Hs]. split; simpl; [| exact Hs].
  apply Forall_app. split; [exact Hd |].
  apply Forall_forall. intros x Hx. apply in_map_iff in Hx as (t & <- & _). now exists t.
Qed.

Lemma preserves_pushSubnets key tokens :
  preserves (pushSubnets key (map normalizeCidr tokens)).
Proof.
  apply preserves_mutate. intros d [Hd Hs]. split; simpl; [exact Hd |].
  apply Forall_app. split; [exact Hs |].
  apply Forall_forall. intros x Hx. apply in_map_iff in Hx as (t & <- & _). now exists t.
Qed.

Section Run.

Variable E : Externals.

Lemma preserves_readLines source baseDir : preserves (readLines E source baseDir).
Proof.
  unfold readLines.
  apply preserves_bind; [| intros; apply preserves_ret].
  destruct (startsWith source "http://" || startsWith source "https://").
  - apply preserves_bind; [apply preserves_log | intros _].
    destruct (fetch E source) as [err | ok st body]; [apply preserves_throw |].
    destruct ok; simpl; [apply preserves_ret | apply preserves_throw].
  - apply preserves_bind; [apply preserves_log | intros _].
    destruct (fileText E _); [apply preserves_ret | apply preserves_throw].
Qed.

Lemma preserves_addMixedEntry line key : preserves (addMixedEntry line key).
Proof.
  unfold addMixedEntry.
  destruct (nonEmpty (trim line)); simpl; [| apply preserves_ret].
  destruct (isIpOrCidr (trim line)).
  - apply (preserves_pushSubnets key [trim line]).
  - apply (preserves_pushDomains key [trim line]).
Qed.

Lemma preserves_processListEntry key entry : preserves (processListEntry E key entry).
Proof.
  unfold processListEntry.
  destruct (nonEmpty (trim entry)); simpl; [| apply preserves_ret].
  destruct (isIpOrCidr (trim entry)).
  - apply (preserves_pushSubnets key [trim entry]).
  - destruct (_ || _).
    + apply preserves_bind; [apply preserves_readLines | intros lines].
      apply preserves_forEach. intros line. apply preserves_addMixedEntry.
    + apply (preserves_pushDomains key [trim entry]).
Qed.

Lemma preserves_processRule rule : preserves (processRule E rule).
Proof.
  unfold processRule.
  apply preserves_bind; [| intros _; apply preserves_bind; [| intros _; apply preserves_bind; [| intros _]]].
  - intros w (Hk & He & Hn).
    destruct (mapHas (rule_outbound rule) (outbounds w)) eqn:Eh; simpl;
      [split; [exact Hk | split; [exact He | exact Hn]] |].
    split; [| split; [exact He |]]; simpl.
    + unfold keysUnique. rewrite keys_mapSet, Eh.
      apply NoDup_snoc; [exact Hk |].
      intros Hin. apply mapGet_In in Hin. unfold mapHas in Eh.
      destruct (mapGet (rule_outbound rule) (outbounds w)); [discriminate | now apply Hin].
    + apply (allNormalized_mapSet _ {| domains := []; subnets := [] |} w); [| exact Hn].
      split; constructor.
  - destruct (rule_domains rule) as [src|]; [| apply preserves_ret].
    destruct (nonEmpty src); [| apply preserves_ret].
    apply preserves_bind; [apply preserves_readLines | intros lines].
    apply preserves_pushDomains.
  - destruct (rule_subnets rule) as [src|]; [| apply preserves_ret].
    destruct (nonEmpty src); [| apply preserves_ret].
    apply preserves_bind; [apply preserves_readLines | intros lines].
    apply preserves_pushSubnets.
  - destruct (rule_list rule) as [entries|]; [| apply preserves_ret].
    destruct (0 <? length entries)%nat; [| apply preserves_ret].
    apply preserves_forEach. intros entry. apply preserves_processListEntry.
Qed.

Lemma processing_startWorld : processing (startWorld E).
Proof.
  split; [constructor | split; [reflexivity |]].
  intros key d H. discriminate H.
Qed.

Lemma processing_rules l : processing (snd (forEach (processRule E) l (startWorld E))).
Proof.
  apply preserves_forEach; [apply preserves_processRule | apply processing_startWorld].
Qed.

End Run.

(** ** Finalisation and emission *)

Lemma mapGet_app_fresh k pre m :
  ~ In k (map fst pre) -> mapGet k (pre ++ m) = mapGet k m.
Proof.
  induction pre as [|[k' d'] pre IH]; simpl; [reflexivity |].
  intros Hn. destruct (String.eqb k' k) eqn:Ek.
  - apply String.eqb_eq in Ek. tauto.
  - apply IH. tauto.
Qed.

Lemma mapSet_app_fresh k d d0 pre rest :
  ~ In k (map fst pre) ->
  mapSet k d (pre ++ (k, d0) :: rest) = (pre ++ (k, d) :: rest)%list.
Proof.
  induction pre as [|[k' d'] pre IH]; simpl.
  - intros _. now rewrite String.eqb_refl.
  - intros Hn. destruct (String.eqb k' k) eqn:Ek.
    + apply String.eqb_eq in Ek. tauto.
    + rewrite IH by tauto. reflexivity.
Qed.

Lemma mapGet_finalized k m :
  mapGet k (map finalized m) = option_map finalize (mapGet k m).
Proof.
  induction m as [|[k' d'] m IH]; simpl; [reflexivity |].
  destruct (String.eqb k' k); [reflexivity | exact IH].
Qed.

Section Finalisation.

Variable E : Externals.

Lemma emitOutbound_run out k d pre rest w :
  outbounds w = (pre ++ (k, d) :: rest)%list ->
  ~ In k (map fst pre) ->
  emitOutbound E out (k, d) w =
  (Return tt,
   {| outbounds := pre ++ (k, finalize d) :: rest;
      trace := trace w ++ outboundTrace E out (k, d) |}).
Proof.
  intros Ho Hn. unfold emitOutbound, bind, log, emit, mutate. simpl.
  rewrite Ho, (mapGet_app_fresh k pre _ Hn). simpl. rewrite String.eqb_refl.
  rewrite (mapSet_app_fresh k _ d pre rest Hn).
  rewrite generateSrs_run. simpl.
  unfold outboundTrace, finalize. simpl. now rewrite <- !app_assoc.
Qed.

Lemma forEach_cons {A} (body : A -> M unit) x l w :
  forEach body (x :: l) w =
  match body x w with
  | (Return _, w') => forEach body l w'
  | (Throw err, w') => (Throw err, w')
  end.
Proof. reflexivity. Qed.

Lemma emit_loop out todo : forall pre w,
  outbounds w = (pre ++ todo)%list ->
  keysUnique (pre ++ todo) ->
  forEach (emitOutbound E out) todo w =
  (Return tt,
   {| outbounds := pre ++ map finalized todo;
      trace := trace w ++ flat_map (outboundTrace E out) todo |}).
Proof.
  induction todo as [|[k d] todo IH]; intros pre w Ho Hk.
  - simpl. unfold ret. rewrite !app_nil_r in *. rewrite <- Ho. now rewrite world_eta.
  - assert (Hn : ~ In k (map fst pre)).
    { unfold keysUnique in Hk. rewrite map_app in Hk. simpl in Hk.
      apply NoDup_remove_2 in Hk. rewrite in_app_iff in Hk. tauto. }
    rewrite forEach_cons, (emitOutbound_run out k d pre todo w Ho Hn).
    rewrite (IH (pre ++ [(k, finalize d)])%list).
    + simpl. unfold finalized at 2. simpl. now rewrite <- !app_assoc.
    + simpl. now rewrite <- app_assoc.
    + unfold keysUnique in *. rewrite <- app_assoc. simpl.
      rewrite map_app in *. exact Hk.
Qed.

Lemma emitted_outboundTrace out l :
  emitted (flat_map (outboundTrace E out) l) =
  flat_map (fun kd => documentFor E (fst kd) (finalize (snd kd)) out) l.
Proof.
  induction l as [|kd l IH]; simpl; [reflexivity |].
  rewrite emitted_app, IH. f_equal. apply emitted_srsTrace.
Qed.

Lemma main_run config :
  main E config emptyWorld =
  match forEach (processRule E) (rules config) (startWorld E) with
  | (Throw err, w1) => (Throw err, w1)
  | (Return _, w1) =>
      (Return tt,
       {| outbounds := map finalized (outbounds w1);
          trace := trace w1 ++
                   ConsoleLog (String LF "Generating rule sets...") ::
                   flat_map (outboundTrace E (metaDir E)) (outbounds w1) ++
                   [ConsoleLog (String LF "Done!")] |})
  end.
Proof.
  pose proof (processing_rules E (rules config)) as (Hk & _ & _).
  unfold main. unfold bind at 1.
  change (log ("Reading config: " ++ join E (metaDir E) "config.yaml") emptyWorld)
    with (Return tt, startWorld E).
  unfold bind at 1.
  destruct (forEach (processRule E) (rules config) (startWorld E)) as [[[] | err] w1];
    [| reflexivity].
  simpl in Hk. unfold bind, log, emit. simpl.
  rewrite (emit_loop (metaDir E) (outbounds w1) []
             {| outbounds := outbounds w1;
                trace := trace w1 ++ [ConsoleLog (String LF "Generating rule sets...")] |}
             eq_refl Hk).
  simpl. now rewrite <- !app_assoc.
Qed.

(** C6: deduplication keeps an element of a sequence exactly when it is in
    the sequence, keeps none twice, and keeps them in the order of their
    first occurrences; a run whose rules all load applies it once to the
    domains and once to the subnets of every accumulator, after the last
    rule and before any document is written, and every document is written
    from the deduplicated accumulator. *)
Theorem finalisation_contract :
  (forall l,
     NoDup (dedupe l) /\
     (forall x, In x (dedupe l) <-> In x l) /\
     (forall l1 x l2,
        l = (l1 ++ x :: l2)%list -> ~ In x l1 ->
        exists rest, dedupe l = (dedupe l1 ++ x :: rest)%list) /\
     (forall x l', l = x :: l' ->
        dedupe l = x :: dedupe (filter (fun y => negb (String.eqb y x)) l'))) /\
  (forall config w1,
     forEach (processRule E) (rules config) (startWorld E) = (Return tt, w1) ->
     emitted (trace w1) = [] /\
     exists w2,
       main E config emptyWorld = (Return tt, w2) /\
       outbounds w2 = map (fun kd => (fst kd, finalize (snd kd))) (outbounds w1) /\
       emitted (trace w2) =
       flat_map (fun kd => documentFor E (fst kd) (finalize (snd kd)) (metaDir E))
         (outbounds w1)).
Proof.
  split.
  - intros l.
    split; [apply dedupe_NoDup | split; [intros x; apply dedupe_In | split]].
    + intros l1 x l2 -> Hn. now apply dedupe_first_occurrence.
    + intros x l' ->. apply (fold_setAdd_keep_first x l' []).
  - intros config w1 Hp.
    pose proof (processing_rules E (rules config)) as (_ & He & _).
    rewrite Hp in He. simpl in He. split; [exact He |].
    eexists. split; [rewrite main_run, Hp; reflexivity |].
    simpl. split; [reflexivity |].
    rewrite emitted_app, He. simpl.
    rewrite emitted_app, emitted_outboundTrace. simpl. now rewrite app_nil_r.
Qed.

(** C8: after every rule of the configuration, whether it loaded or threw,
    and at the end of the run, every domain of every accumulator is a value
    of [normalizeDomainSuffix] and every subnet is a value of
    [normalizeCidr]. *)
Theorem accumulators_normalized :
  forall config,
    (forall n,
       allNormalized
         (snd (forEach (processRule E) (firstn n (rules config)) (startWorld E)))) /\
    allNormalized (run E config emptyWorld).
Proof.
  intros config. split.
  - intros n. apply (processing_rules E (firstn n (rules config))).
  - pose proof (processing_rules E (rules config)) as (_ & _ & Hn).
    unfold run. rewrite main_run.
    destruct (forEach (processRule E) (rules config) (startWorld E)) as [[[] | err] w1];
      simpl in Hn; intros key d; simpl.
    + rewrite mapGet_finalized.
      destruct (mapGet key (outbounds w1)) as [d1|] eqn:Eg; [| discriminate].
      intros [= <-]. apply finalize_normalized. exact (Hn key d1 Eg).
    + apply Hn.
Qed.

End Finalisation.

Lemma list_entry_routing_witness :
  processListEntry Demo.E "direct" " lists/extra.txt " Demo.fresh =
  (Return tt,
   {| outbounds :=
        [("direct",
          {| domains := ["example.org"];
             subnets := ["10.0.0.0/24"; "1.2.3.4/"] |})];
      trace := [ConsoleLog "  Reading: /etc/rules/lists/extra.txt"] |}).
Proof.
  exact (proj1 (proj2 (proj2 (proj1
           (list_entry_routing Demo.E "direct" Demo.fresh
              {| domains := []; subnets := [] |} eq_refl)
           " lists/extra.txt ")))
         eq_refl eq_refl eq_refl).
Defined.

Lemma trailing_slash_routing_witness :
  isIpOrCidr "1.2.3.4/" = true /\
  normalizeCidr "1.2.3.4/" = "1.2.3.4/" /\
  processListEntry Demo.E "direct" "1.2.3.4/" Demo.fresh =
  (Return tt,
   {| outbounds := [("direct", {| domains := []; subnets := ["1.2.3.4/"] |})];
      trace := [] |}).
Proof.
  assert (H : classifyIp "1.2.3.4" <> NotIp) by (vm_compute; discriminate).
  destruct (trailing_slash_routing Demo.E "1.2.3.4" H) as (H1 & H2 & H3).
  split; [exact H1 | split; [exact H2 |]].
  exact (proj1 (H3 "direct" Demo.fresh {| domains := []; subnets := [] |} eq_refl)).
Defined.

Lemma finalisation_witness :
  exists w2,
    main Demo.E Demo.config emptyWorld = (Return tt, w2) /\
    outbounds w2 =
    [("direct",
      {| domains := ["example.com"; "example.org"];
         subnets := ["8.8.8.8/32"; "10.0.0.0/24"; "1.2.3.4/"; "1.1.1.1/32"] |});
     ("idle", {| domains := []; subnets := [] |})] /\
    emitted (trace w2) =
    [("/etc/rules/json/direct-rule.json",
      {| version := 3;
         ruleBlocks :=
           [domain_suffix ["example.com"; "example.org"];
            ip_cidr ["8.8.8.8/32"; "10.0.0.0/24"; "1.2.3.4/"; "1.1.1.1/32"]] |})].
Proof.
  exact (proj2 (proj2 (finalisation_contract Demo.E) Demo.config
                  (snd (forEach (processRule Demo.E) (rules Demo.config)
                          (startWorld Demo.E)))
                  eq_refl)).
Defined.

(** * Further properties *)

(** ** The normalisers and the classifier *)

Lemma trimEnd_app_solid s t :
  trimEnd t = t -> t <> EmptyString -> trimEnd (s ++ t) = s ++ t.
Proof.
  intros Ht Hn. induction s as [|a s IH]; [exact Ht |].
  change (String a s ++ t) with (String a (s ++ t)).
  rewrite trimEnd_cons_keep; rewrite IH; [reflexivity |].
  destruct s; [exact Hn | discriminate].
Qed.

Lemma classified_headClean v :
  classifyIp v <> NotIp -> headClean v = true /\ nonEmpty v = true.
Proof.
  intros H. destruct (classified_chars v H) as [Hn He]. split; [| exact Hn].
  destruct v as [|a v]; [reflexivity |].
  simpl in *. apply andb_true_iff in He as [Ha _].
  now apply andb_true_iff in Ha as [Ha _].
Qed.

Lemma trim_classified_suffix v t :
  classifyIp v <> NotIp -> trimEnd t = t -> t <> EmptyString ->
  trim (v ++ t) = v ++ t.
Proof.
  intros H Ht Hn. destruct (classified_headClean v H) as [Hh Hne].
  apply trim_clean; [| now apply trimEnd_app_solid].
  destruct v; [discriminate Hne | exact Hh].
Qed.

Lemma includes_app_slash v t :
  includes (v ++ String "/" t) "/" = true.
Proof.
  apply includes_char. rewrite chars_app. apply in_or_app. right. now left.
Qed.

Lemma no_slash_every v :
  includes v "/" = false -> every (fun c => negb (Ascii.eqb c "/")) v = true.
Proof.
  intros H. apply every_In. intros c Hc.
  destruct (Ascii.eqb c "/") eqn:Ec; [| reflexivity].
  apply Ascii.eqb_eq in Ec. subst c.
  apply includes_char in Hc. congruence.
Qed.

Lemma isIPv4_classified v : isIPv4 v = true -> classifyIp v <> NotIp.
Proof. unfold classifyIp. intros ->. discriminate. Qed.

Lemma isIPv6_classified v : isIPv6 v = true -> classifyIp v <> NotIp.
Proof. unfold classifyIp. intros ->. destruct (isIPv4 v); discriminate. Qed.

(** X1: [normalizeCidr] is idempotent. *)
Theorem normalizeCidr_idempotent :
  forall x, normalizeCidr (normalizeCidr x) = normalizeCidr x.
Proof.
  intros x. unfold normalizeCidr at 2.
  destruct (includes (trim x) "/") eqn:Es.
  - unfold normalizeCidr. now rewrite trim_idem, Es.
  - destruct (isIPv4 (trim x)) eqn:E4.
    + unfold normalizeCidr.
      rewrite (trim_classified_suffix (trim x) "/32" (isIPv4_classified _ E4))
        by (reflexivity || discriminate).
      now rewrite (includes_app_slash (trim x) "32"), Es, E4.
    + destruct (isIPv6 (trim x)) eqn:E6.
      * unfold normalizeCidr.
        rewrite (trim_classified_suffix (trim x) "/128" (isIPv6_classified _ E6))
          by (reflexivity || discriminate).
        now rewrite (includes_app_slash (trim x) "128"), Es, E4, E6.
      * unfold normalizeCidr. now rewrite trim_idem, Es, E4, E6.
Qed.

Lemma isIpOrCidr_bare v :
  trim v = v -> includes v "/" = false ->
  isIpOrCidr v = nonEmpty v && (isIPv4 v || isIPv6 v).
Proof.
  intros Ht Hs. unfold isIpOrCidr, splitLimit.
  rewrite Ht, (split_clean v "/" (no_slash_every v Hs)). simpl.
  destruct (nonEmpty v); [| reflexivity]. simpl.
  destruct (isIPv4 v); [reflexivity |]. now destruct (isIPv6 v).
Qed.

Lemma isIpOrCidr_with_suffix v p :
  classifyIp v <> NotIp -> includes v "/" = false ->
  trimEnd (String "/" p) = String "/" p -> split p "/" = [p] ->
  isIpOrCidr (v ++ String "/" p) =
  negb (nonEmpty p && negb (testDigits p)) &&
  if isIPv4 v then (Number p <=? 32)%N else (Number p <=? 128)%N.
Proof.
  intros Hc Hs Hp Hsp. unfold isIpOrCidr, splitLimit.
  rewrite (trim_classified_suffix v (String "/" p) Hc Hp) by discriminate.
  rewrite (split_app_sep v p "/" (no_slash_every v Hs)), Hsp.
  destruct (classified_headClean v Hc) as [_ Hne]. simpl. rewrite Hne. simpl.
  destruct (nonEmpty p && negb (testDigits p)); [reflexivity |]. simpl.
  unfold classifyIp in Hc.
  destruct (isIPv4 v); [now rewrite N_leb_0 |].
  destruct (isIPv6 v); [now rewrite N_leb_0 | now destruct Hc].
Qed.

(** X2: [normalizeCidr] keeps the verdict of [isIpOrCidr], and what it
    returns for an accepted token contains a slash. *)
Theorem normalizeCidr_keeps_verdict :
  forall x,
    isIpOrCidr (normalizeCidr x) = isIpOrCidr x /\
    (isIpOrCidr x = true -> In "/"%char (chars (normalizeCidr x))).
Proof.
  intros x.
  assert (Hb : includes (trim x) "/" = false ->
               isIpOrCidr x = nonEmpty (trim x) && (isIPv4 (trim x) || isIPv6 (trim x))).
  { intros Hs. rewrite <- isIpOrCidr_trim.
    apply isIpOrCidr_bare; [apply trim_idem | exact Hs]. }
  unfold normalizeCidr.
  destruct (includes (trim x) "/") eqn:Es.
  - split; [apply isIpOrCidr_trim |]. intros _. now apply includes_char.
  - specialize (Hb eq_refl).
    destruct (isIPv4 (trim x)) eqn:E4.
    + pose proof (isIPv4_classified _ E4) as Hc.
      destruct (classified_headClean _ Hc) as [_ Hne].
      split.
      * rewrite (isIpOrCidr_with_suffix (trim x) "32" Hc Es eq_refl eq_refl).
        rewrite E4, Hb, Hne. reflexivity.
      * intros _. apply includes_char, (includes_app_slash (trim x) "32").
    + destruct (isIPv6 (trim x)) eqn:E6.
      * pose proof (isIPv6_classified _ E6) as Hc.
        destruct (classified_headClean _ Hc) as [_ Hne].
        split.
        -- rewrite (isIpOrCidr_with_suffix (trim x) "128" Hc Es eq_refl eq_refl).
           rewrite E4, Hb, Hne. reflexivity.
        -- intros _. apply includes_char, (includes_app_slash (trim x) "128").
      * split; [apply isIpOrCidr_trim |].
        rewrite Hb, andb_false_r. discriminate.
Qed.

Lemma normalizeCidr_keeps_verdict_witness :
  In "/"%char (chars (normalizeCidr " 2001:db8::1 ")).
Proof.
  apply (proj2 (normalizeCidr_keeps_verdict " 2001:db8::1 ")). reflexivity.
Defined.

(** X3: no token is both an IPv4 and an IPv6 address for the classifier, so
    the order of the two tests does not matter. *)
Theorem isIPv4_isIPv6_disjoint :
  forall v, isIPv4 v && isIPv6 v = false.
Proof.
  intros v. destruct (isIPv4 v) eqn:E4; [| reflexivity].
  destruct (isIPv6 v) eqn:E6; [| reflexivity]. exfalso.
  apply isIPv4_shape in E4 as (a & b & c & d & -> & _).
  apply isIPv6_shape in E6 as [_ H].
  specialize (H "."%char). rewrite chars_app in H.
  assert (Hin : In "."%char (chars "0123456789abcdefABCDEF:")).
  { apply H, in_or_app. right. now left. }
  simpl in Hin.
  repeat (destruct Hin as [Hin | Hin]; [discriminate Hin |]). destruct Hin.
Qed.


Lemma startsWith_app v p : startsWith v p = true -> exists r, v = p ++ r.
Proof.
  revert v. induction p as [|b p IH]; intros v H.
  - now exists v.
  - destruct v as [|a v]; [discriminate H |].
    simpl in H. apply andb_true_iff in H as [Hab Hp].
    apply Ascii.eqb_eq in Hab. subst b.
    destruct (IH v Hp) as [r ->]. now exists r.
Qed.

Lemma url_shape v :
  isUrl v = true ->
  exists r, trim v = "http:" ++ String "/" (String "/" r) \/
            trim v = "https:" ++ String "/" (String "/" r).
Proof.
  unfold isUrl. intros H. apply orb_true_iff in H as [H | H];
    apply startsWith_app in H as [r ->]; exists (trimEnd r); [left | right];
    unfold trim; simpl; now destruct (trimEnd r).
Qed.

(** X4: an entry that starts with [http://] or [https://] is never taken for
    an address, so as a list entry it is always loaded as a source. *)
Theorem url_entry_is_loaded :
  forall E key entry w,
    isUrl (trim entry) = true ->
    isIpOrCidr entry = false /\
    processListEntry E key entry w =
    (lines <- readLines E (trim entry) (metaDir E) ;;
     forEach (fun line => addMixedEntry line key) lines) w.
Proof.
  intros E key entry w H.
  assert (Hip : isIpOrCidr (trim entry) = false).
  { destruct (url_shape _ H) as [r Hr]. unfold isIpOrCidr, splitLimit.
    rewrite !trim_idem in *.
    destruct Hr as [-> | ->]; simpl; now destruct (split r "/"). }
  split; [now rewrite <- isIpOrCidr_trim |].
  unfold processListEntry. rewrite Hip.
  unfold isUrl in H. rewrite H. simpl.
  assert (Hne : nonEmpty (trim entry) = true).
  { apply orb_true_iff in H as [H | H];
      apply startsWith_app in H as [r ->]; reflexivity. }
  now rewrite Hne.
Qed.

Lemma url_entry_is_loaded_witness :
  isIpOrCidr " https://example.com/list.txt" = false.
Proof.
  apply (proj1 (url_entry_is_loaded Demo.E "direct" " https://example.com/list.txt"
                  Demo.fresh eq_refl)).
Defined.



(** ** Deduplication, further *)

Lemma fold_setAdd_fresh l : forall acc,
  NoDup (acc ++ l) -> fold_left setAdd l acc = (acc ++ l)%list.
Proof.
  induction l as [|y l IH]; intros acc H; simpl.
  - now rewrite app_nil_r.
  - assert (Hy : ~ In y acc).
    { apply NoDup_remove_2 in H. rewrite in_app_iff in H. tauto. }
    assert (Hs : setAdd acc y = (acc ++ [y])%list).
    { unfold setAdd. destruct (existsb (String.eqb y) acc) eqn:Ex; [| reflexivity].
      apply existsb_eqb_In in Ex. contradiction. }
    rewrite Hs, IH; rewrite <- app_assoc; [reflexivity | exact H].
Qed.

Lemma fold_setAdd_length l : forall acc,
  length (fold_left setAdd l acc) <= length acc + length l.
Proof.
  induction l as [|y l IH]; intros acc; simpl; [lia |].
  specialize (IH (setAdd acc y)).
  assert (length (setAdd acc y) <= S (length acc)).
  { unfold setAdd. destruct (existsb (String.eqb y) acc); [lia |].
    rewrite length_app. simpl. lia. }
  lia.
Qed.

(** X6: deduplication leaves a sequence without duplicates as it is, so a
    second deduplication changes nothing, and it never lengthens a
    sequence. *)
Theorem dedupe_stable :
  (forall l, NoDup l -> dedupe l = l) /\
  (forall l, dedupe (dedupe l) = dedupe l) /\
  (forall l, length (dedupe l) <= length l).
Proof.
  assert (H : forall l, NoDup l -> dedupe l = l).
  { intros l Hl. apply (fold_setAdd_fresh l []). exact Hl. }
  split; [exact H | split].
  - intros l. apply H, dedupe_NoDup.
  - intros l. apply (fold_setAdd_length l []).
Qed.

Lemma dedupe_stable_witness :
  dedupe ["example.com"; "example.org"] = ["example.com"; "example.org"].
Proof.
  apply (proj1 dedupe_stable).
  repeat constructor; simpl; intuition discriminate.
Defined.


(** ** Loading a source *)

Lemma split_pieces s sep : Forall (fun p => ~ In sep (chars p)) (split s sep).
Proof.
  induction s as [|c s IH]; simpl.
  - constructor; [intros [] | constructor].
  - destruct (Ascii.eqb c sep) eqn:Ec.
    + constructor; [intros [] | exact IH].
    + assert (Hc : c <> sep).
      { intros ->. rewrite Ascii.eqb_refl in Ec. discriminate Ec. }
      destruct (split s sep) as [|p ps].
      * constructor; [| constructor]. simpl. intuition congruence.
      * inversion IH as [|p' ps' Hp Hps]; subst.
        constructor; [| exact Hps]. simpl. intuition congruence.
Qed.

Lemma chars_trimStart c s : In c (chars (trimStart s)) -> In c (chars s).
Proof.
  induction s as [|a s IH]; simpl; [tauto |].
  destruct (isWhiteSpace a); simpl; tauto.
Qed.

Lemma chars_trimEnd c s : In c (chars (trimEnd s)) -> In c (chars s).
Proof.
  induction s as [|a s IH]; simpl; [tauto |].
  destruct (trimEnd s) as [|b r].
  - destruct (isWhiteSpace a); simpl; tauto.
  - simpl in *. tauto.
Qed.

Lemma chars_trim c s : In c (chars (trim s)) -> In c (chars s).
Proof. intros H. apply chars_trimStart, chars_trimEnd, H. Qed.

Lemma kept_lines_clean content :
  Forall cleanLine
    (filter (fun line => nonEmpty line && negb (startsWith line "#"))
       (map trim (split content LF))).
Proof.
  apply Forall_forall. intros l Hl.
  apply filter_In in Hl as [Hin Hf].
  apply in_map_iff in Hin as (p & <- & Hp).
  apply andb_true_iff in Hf as [Hne Hc]. apply negb_true_iff in Hc.
  repeat split.
  - apply trim_idem.
  - intros He. rewrite He in Hne. discriminate Hne.
  - exact Hc.
  - intros Hlf. apply chars_trim in Hlf.
    exact (proj1 (Forall_forall _ _) (split_pieces content LF) p Hp Hlf).
Qed.

Section Loading.

Variable E : Externals.

(** X7: the lines a source yields are trimmed, not blank, not comments and
    free of line feeds; loading prints one line and leaves the accumulators
    alone. *)
Theorem readLines_lines :
  forall source baseDir w lines w1,
    readLines E source baseDir w = (Return lines, w1) ->
    Forall cleanLine lines /\
    outbounds w1 = outbounds w /\
    exists line, trace w1 = (trace w ++ [ConsoleLog line])%list.
Proof.
  intros source baseDir w lines w1. unfold readLines.
  destruct (startsWith source "http://" || startsWith source "https://");
    unfold bind, log, emit, ret, throw; simpl.
  - destruct (fetch E source) as [err | ok st body]; simpl;
      [intros H; discriminate H |].
    destruct ok; simpl; intros H; [| discriminate H].
    injection H as <- <-.
    split; [apply kept_lines_clean | split; [reflexivity |]]. now eexists.
  - destruct (fileText E (join E baseDir source)) as [content | err]; simpl;
      intros H; [| discriminate H].
    injection H as <- <-.
    split; [apply kept_lines_clean | split; [reflexivity |]]. now eexists.
Qed.

(** X8: a load fails only when the environment fails: for a URL when the
    request is rejected or the response is not ok (with the message
    "Failed to fetch <source>: <statusText>"), for any other source when
    the file under [join baseDir source] cannot be read; the accumulators
    are left alone and one line has been printed. *)
Theorem readLines_failure :
  forall source baseDir w err w1,
    readLines E source baseDir w = (Throw err, w1) ->
    outbounds w1 = outbounds w /\
    if isUrl source then
      trace w1 = (trace w ++ [ConsoleLog ("  Fetching: " ++ source)])%list /\
      (fetch E source = FetchRejected err \/
       exists statusText body,
         fetch E source = FetchResponse false statusText body /\
         err = "Failed to fetch " ++ source ++ ": " ++ statusText)
    else
      trace w1 = (trace w ++ [ConsoleLog ("  Reading: " ++ join E baseDir source)])%list /\
      fileText E (join E baseDir source) = Throw err.
Proof.
  intros source baseDir w err w1. unfold readLines, isUrl.
  destruct (startsWith source "http://" || startsWith source "https://");
    unfold bind, log, emit, ret, throw; simpl.
  - destruct (fetch E source) as [err' | ok st body]; simpl.
    + intros H. injection H as <- <-.
      split; [reflexivity | split; [reflexivity | now left]].
    + destruct ok; simpl; intros H; [discriminate H |].
      injection H as <- <-.
      split; [reflexivity | split; [reflexivity | right]].
      now exists st, body.
  - destruct (fileText E (join E baseDir source)) as [content | err']; simpl;
      intros H; [discriminate H |].
    injection H as <- <-. split; [reflexivity | split; reflexivity].
Qed.

End Loading.

Lemma readLines_lines_witness :
  Forall cleanLine ["10.0.0.0/24"; "*.Example.org"; "1.2.3.4/"].
Proof.
  exact (proj1 (readLines_lines Demo.E "lists/extra.txt" "/etc/rules" emptyWorld
                  _ _ eq_refl)).
Defined.

Lemma readLines_failure_witness :
  fileText Demo.E "/etc/rules/missing.txt" = Throw "ENOENT".
Proof.
  exact (proj2 (proj2 (readLines_failure Demo.E "missing.txt" "/etc/rules" emptyWorld
                         _ _ eq_refl))).
Defined.


(** ** What a rule does to the world *)

Lemma grows_refl key0 w : grows key0 w w.
Proof.
  split; [exists []; simpl; now rewrite app_nil_r | split; [reflexivity |]].
  intros key d H. exists d. split; [exact H |].
  split; [exists []; now rewrite app_nil_r |].
  split; [exists []; now rewrite app_nil_r | reflexivity].
Qed.

Lemma grows_trans key0 w1 w2 w3 :
  grows key0 w1 w2 -> grows key0 w2 w3 -> grows key0 w1 w3.
Proof.
  intros ([l1 T1] & K1 & D1) ([l2 T2] & K2 & D2).
  split; [| split].
  - exists (l1 ++ l2)%list. now rewrite T2, T1, map_app, app_assoc.
  - now rewrite K2.
  - intros key d H.
    destruct (D1 key d H) as (d1 & H1 & [ds1 Hd1] & [ss1 Hs1] & U1).
    destruct (D2 key d1 H1) as (d2 & H2 & [ds2 Hd2] & [ss2 Hs2] & U2).
    exists d2. split; [exact H2 |].
    split; [exists (ds1 ++ ds2)%list; now rewrite Hd2, Hd1, app_assoc |].
    split; [exists (ss1 ++ ss2)%list; now rewrite Hs2, Hs1, app_assoc |].
    intros Hn. now rewrite (U2 Hn), (U1 Hn).
Qed.

Lemma growing_ret {A} key0 (a : A) : growing key0 (ret a).
Proof. intros w. apply grows_refl. Qed.

Lemma growing_throw {A} key0 err : growing key0 (@throw A err).
Proof. intros w. apply grows_refl. Qed.

Lemma growing_bind {A B} key0 (m : M A) (k : A -> M B) :
  growing key0 m -> (forall a, growing key0 (k a)) -> growing key0 (bind m k).
Proof.
  intros Hm Hk w. unfold bind. specialize (Hm w).
  destruct (m w) as [[a | err] w1]; simpl in *; [| exact Hm].
  exact (grows_trans key0 w w1 _ Hm (Hk a w1)).
Qed.

Lemma growing_forEach {A} key0 (body : A -> M unit) l :
  (forall x, growing key0 (body x)) -> growing key0 (forEach body l).
Proof.
  intros Hb. induction l as [|x l IH]; simpl.
  - apply growing_ret.
  - apply growing_bind; [apply Hb | intros _; exact IH].
Qed.

Lemma growing_log key0 line : growing key0 (log line).
Proof.
  intros w. unfold log, emit. simpl.
  split; [now exists [line] | split; [reflexivity |]].
  intros key d H. exists d. split; [exact H |].
  split; [exists []; now rewrite app_nil_r |].
  split; [exists []; now rewrite app_nil_r | reflexivity].
Qed.

Lemma growing_mutate key0 f :
  (forall d, (exists ds, domains (f d) = (domains d ++ ds)%list) /\
             (exists ss, subnets (f d) = (subnets d ++ ss)%list)) ->
  growing key0 (mutate key0 f).
Proof.
  intros Hf w. unfold mutate. simpl.
  destruct (mapGet key0 (outbounds w)) as [d0|] eqn:Eg.
  - split; [exists []; simpl; now rewrite app_nil_r | split]; simpl.
    + rewrite keys_mapSet. unfold mapHas. now rewrite Eg.
    + intros key d H. destruct (string_dec key0 key) as [<- | Hne].
      * rewrite mapGet_mapSet_same. exists (f d0). split; [reflexivity |].
        assert (d0 = d) by congruence. subst d0.
        destruct (Hf d) as [Hd Hs]. split; [exact Hd | split; [exact Hs |]].
        intros Hn. now destruct Hn.
      * rewrite (mapGet_mapSet_other _ _ _ _ Hne). exists d. split; [exact H |].
        split; [exists []; now rewrite app_nil_r |].
        split; [exists []; now rewrite app_nil_r | reflexivity].
  - rewrite world_eta. apply grows_refl.
Qed.

Lemma growing_pushDomains key0 ds : growing key0 (pushDomains key0 ds).
Proof.
  apply growing_mutate. intros d. simpl.
  split; [now exists ds | exists []; now rewrite app_nil_r].
Qed.

Lemma growing_pushSubnets key0 ss : growing key0 (pushSubnets key0 ss).
Proof.
  apply growing_mutate. intros d. simpl.
  split; [exists []; now rewrite app_nil_r | now exists ss].
Qed.

Lemma mapHas_existsb k m : mapHas k m = existsb (String.eqb k) (map fst m).
Proof.
  unfold mapHas. induction m as [|[k' d'] m IH]; simpl; [reflexivity |].
  rewrite (String.eqb_sym k k'). destruct (String.eqb k' k); [reflexivity | exact IH].
Qed.

Lemma ensureOutbound_run key w :
  exists w0,
    ensureOutbound key w = (Return tt, w0) /\
    trace w0 = trace w /\
    map fst (outbounds w0) = setAdd (map fst (outbounds w)) key /\
    (forall k d, mapGet k (outbounds w) = Some d -> mapGet k (outbounds w0) = Some d) /\
    mapGet key (outbounds w0) <> None.
Proof.
  unfold ensureOutbound, setAdd. rewrite <- mapHas_existsb.
  destruct (mapHas key (outbounds w)) eqn:Eh; simpl.
  - exists w. repeat split; auto.
    unfold mapHas in Eh. destruct (mapGet key (outbounds w)); [discriminate | discriminate Eh].
  - eexists. split; [reflexivity |]. simpl.
    split; [reflexivity | split; [| split]].
    + now rewrite keys_mapSet, Eh.
    + intros k d H. rewrite mapGet_mapSet_other; [exact H |].
      intros <-. unfold mapHas in Eh. rewrite H in Eh. discriminate Eh.
    + rewrite mapGet_mapSet_same. discriminate.
Qed.

Section Rules.

Variable E : Externals.

Lemma growing_readLines key0 source baseDir : growing key0 (readLines E source baseDir).
Proof.
  unfold readLines.
  apply growing_bind; [| intros; apply growing_ret].
  destruct (startsWith source "http://" || startsWith source "https://").
  - apply growing_bind; [apply growing_log | intros _].
    destruct (fetch E source) as [err | ok st body]; [apply growing_throw |].
    destruct ok; simpl; [apply growing_ret | apply growing_throw].
  - apply growing_bind; [apply growing_log | intros _].
    destruct (fileText E _); [apply growing_ret | apply growing_throw].
Qed.

Lemma growing_addMixedEntry key0 line : growing key0 (addMixedEntry line key0).
Proof.
  unfold addMixedEntry.
  destruct (nonEmpty (trim line)); simpl; [| apply growing_ret].
  destruct (isIpOrCidr (trim line)); [apply growing_pushSubnets | apply growing_pushDomains].
Qed.

Lemma growing_processListEntry key0 entry : growing key0 (processListEntry E key0 entry).
Proof.
  unfold processListEntry.
  destruct (nonEmpty (trim entry)); simpl; [| apply growing_ret].
  destruct (isIpOrCidr (trim entry)); [apply growing_pushSubnets |].
  destruct (_ || _); [| apply growing_pushDomains].
  apply growing_bind; [apply growing_readLines | intros lines].
  apply growing_forEach. intros line. apply growing_addMixedEntry.
Qed.

Lemma growing_ruleChannels rule : growing (rule_outbound rule) (ruleChannels E rule).
Proof.
  unfold ruleChannels.
  apply growing_bind; [| intros _; apply growing_bind; [| intros _]].
  - destruct (rule_domains rule) as [src|]; [| apply growing_ret].
    destruct (nonEmpty src); [| apply growing_ret].
    apply growing_bind; [apply growing_readLines | intros lines].
    apply growing_pushDomains.
  - destruct (rule_subnets rule) as [src|]; [| apply growing_ret].
    destruct (nonEmpty src); [| apply growing_ret].
    apply growing_bind; [apply growing_readLines | intros lines].
    apply growing_pushSubnets.
  - destruct (rule_list rule) as [entries|]; [| apply growing_ret].
    destruct (0 <? length entries)%nat; [| apply growing_ret].
    apply growing_forEach. intros entry. apply growing_processListEntry.
Qed.

Lemma processRule_steps rule w :
  processRule E rule w =
  match ensureOutbound (rule_outbound rule) w with
  | (Return _, w0) => ruleChannels E rule w0
  | (Throw err, w0) => (Throw err, w0)
  end.
Proof. reflexivity. Qed.

(** X9: whatever a rule loads and whether or not a load fails, processing
    it only adds log lines to the console, adds at most its own outbound to
    the [Map] (at the end, when it was not there), only appends to the
    domains and subnets of its own outbound and leaves every other
    accumulator as it was. *)
Theorem processRule_appends :
  forall rule w,
    let w' := snd (processRule E rule w) in
    let key0 := rule_outbound rule in
    (exists lines, trace w' = (trace w ++ map ConsoleLog lines)%list) /\
    map fst (outbounds w') =
      (if mapHas key0 (outbounds w)
       then map fst (outbounds w)
       else map fst (outbounds w) ++ [key0])%list /\
    mapGet key0 (outbounds w') <> None /\
    forall key d,
      mapGet key (outbounds w) = Some d ->
      exists d',
        mapGet key (outbounds w') = Some d' /\
        (exists ds, domains d' = (domains d ++ ds)%list) /\
        (exists ss, subnets d' = (subnets d ++ ss)%list) /\
        (key <> key0 -> d' = d).
Proof.
  intros rule w w' key0. subst w' key0. rewrite processRule_steps.
  destruct (ensureOutbound_run (rule_outbound rule) w) as (w0 & -> & T0 & K0 & D0 & P0).
  destruct (growing_ruleChannels rule w0) as (T & K & D).
  split; [| split; [| split]].
  - now rewrite <- T0.
  - rewrite K, K0. unfold setAdd. now rewrite <- mapHas_existsb.
  - destruct (mapGet (rule_outbound rule) (outbounds w0)) as [d0|] eqn:Eg;
      [| now destruct P0].
    destruct (D _ d0 Eg) as (d' & -> & _). discriminate.
  - intros key d H. exact (D key d (D0 key d H)).
Qed.

Lemma processRule_keys rule w :
  map fst (outbounds (snd (processRule E rule w))) =
  setAdd (map fst (outbounds w)) (rule_outbound rule).
Proof.
  rewrite processRule_steps.
  destruct (ensureOutbound_run (rule_outbound rule) w) as (w0 & -> & _ & K0 & _).
  destruct (growing_ruleChannels rule w0) as (_ & K & _). now rewrite K.
Qed.

Lemma processRule_trace rule w :
  exists lines,
    trace (snd (processRule E rule w)) = (trace w ++ map ConsoleLog lines)%list.
Proof.
  rewrite processRule_steps.
  destruct (ensureOutbound_run (rule_outbound rule) w) as (w0 & -> & T0 & _).
  destruct (growing_ruleChannels rule w0) as (T & _). now rewrite <- T0.
Qed.

Lemma rules_keys rs : forall w w1,
  forEach (processRule E) rs w = (Return tt, w1) ->
  map fst (outbounds w1) = fold_left setAdd (map rule_outbound rs) (map fst (outbounds w)).
Proof.
  induction rs as [|r rs IH]; intros w w1; simpl map; simpl fold_left.
  - simpl. unfold ret. now intros [= <-].
  - rewrite forEach_cons. pose proof (processRule_keys r w) as Hk.
    destruct (processRule E r w) as [[[] | err] w']; [| discriminate].
    intros H. rewrite (IH _ _ H). simpl in Hk. now rewrite Hk.
Qed.

Lemma rules_trace rs : forall w,
  exists lines,
    trace (snd (forEach (processRule E) rs w)) = (trace w ++ map ConsoleLog lines)%list.
Proof.
  induction rs as [|r rs IH]; intros w.
  - exists []. simpl. now rewrite app_nil_r.
  - rewrite forEach_cons. destruct (processRule_trace r w) as [l1 H1].
    destruct (processRule E r w) as [[[] | err] w']; simpl in *.
    + destruct (IH w') as [l2 H2]. exists (l1 ++ l2)%list.
      now rewrite H2, H1, map_app, app_assoc.
    + now exists l1.
Qed.

(** X10: when every load succeeds, the run ends with one accumulator for
    each outbound name of the configuration, in the order in which the names
    first appear. *)
Theorem outbounds_in_first_appearance_order :
  forall config w1,
    forEach (processRule E) (rules config) (startWorld E) = (Return tt, w1) ->
    map fst (outbounds (run E config emptyWorld)) =
    dedupe (map rule_outbound (rules config)).
Proof.
  intros config w1 H. unfold run. rewrite main_run, H. simpl.
  rewrite map_map. simpl.
  change (map (fun x => fst x) (outbounds w1)) with (map fst (outbounds w1)).
  now rewrite (rules_keys _ _ _ H).
Qed.

(** X11: when a load fails, the run writes no file and calls no compiler:
    all it leaves is log lines followed by the error on the error console. *)
Theorem failed_load_writes_nothing :
  forall config err w1,
    forEach (processRule E) (rules config) (startWorld E) = (Throw err, w1) ->
    fst (main E config emptyWorld) = Throw err /\
    exists lines,
      trace (run E config emptyWorld) =
      (map ConsoleLog lines ++ [ConsoleError err])%list.
Proof.
  intros config err w1 H. unfold run. rewrite main_run, H. simpl.
  split; [reflexivity |].
  destruct (rules_trace (rules config) (startWorld E)) as [lines Hl].
  rewrite H in Hl. simpl in Hl.
  exists (("Reading config: " ++ join E (metaDir E) "config.yaml") :: lines).
  now rewrite Hl.
Qed.

(** X12: the compiler's outcome changes neither whether the run returns,
    nor the accumulators, nor the documents written. *)
Theorem compiler_outcome_is_irrelevant :
  forall sb config,
    let r := main E config emptyWorld in
    let r' := main (withCompiler E sb) config emptyWorld in
    fst r' = fst r /\
    outbounds (snd r') = outbounds (snd r) /\
    emitted (trace (snd r')) = emitted (trace (snd r)).
Proof.
  intros sb config r r'. subst r r'. rewrite !main_run.
  change (forEach (processRule (withCompiler E sb)) (rules config)
            (startWorld (withCompiler E sb)))
    with (forEach (processRule E) (rules config) (startWorld E)).
  destruct (forEach (processRule E) (rules config) (startWorld E))
    as [[[] | err] w1]; simpl; [| now repeat split].
  split; [reflexivity | split; [reflexivity |]].
  rewrite !emitted_app. simpl. rewrite !emitted_app, !emitted_outboundTrace.
  reflexivity.
Qed.

End Rules.

Lemma outbounds_order_witness :
  map fst (outbounds (run Demo.E Demo.config emptyWorld)) =
  dedupe (map rule_outbound (rules Demo.config)).
Proof.
  apply (outbounds_in_first_appearance_order Demo.E Demo.config
           (snd (forEach (processRule Demo.E) (rules Demo.config)
                   (startWorld Demo.E)))).
  vm_compute. reflexivity.
Defined.

Lemma failed_load_witness :
  fst (main Demo.E Broken.config emptyWorld) = Throw "ENOENT" /\
  exists lines,
    trace (run Demo.E Broken.config emptyWorld) =
    (map ConsoleLog lines ++ [ConsoleError "ENOENT"])%list.
Proof.
  apply (failed_load_writes_nothing Demo.E Broken.config "ENOENT"
           (snd (forEach (processRule Demo.E) (rules Broken.config)
                   (startWorld Demo.E)))).
  vm_compute. reflexivity.
Defined.


(** ** Further properties of the emitter and of the channels *)

Section Reports.

Variable E : Externals.

(** X13: for an accumulator with a domain or a subnet the emitter writes
    the document, then calls the compiler once on it, then reports the
    outcome, on the console when it compiled and on the error console when
    it failed; it returns normally in both cases. *)
Theorem generateSrs_reports_compiler :
  forall name data out w,
    domains data <> [] \/ subnets data <> [] ->
    let jsonPath := join E (join E out "json") (name ++ "-rule.json") in
    let srsPath := join E (join E out "srs") (name ++ "-rule.srs") in
    generateSrs E name data out w =
    (Return tt,
     {| outbounds := outbounds w;
        trace :=
          trace w ++
          [BunWrite (join E (join E out "json") ".gitkeep") "";
           BunWrite (join E (join E out "srs") ".gitkeep") "";
           BunWriteJson jsonPath {| version := 3; ruleBlocks := rulesOf data |};
           ConsoleLog ("  Generated JSON: " ++ jsonPath);
           ShellSingBox jsonPath srsPath;
           match singBox E jsonPath srsPath with
           | Return _ => ConsoleLog ("  Compiled SRS: " ++ srsPath)
           | Throw error =>
               ConsoleError ("  Failed to compile " ++ jsonPath ++ ": " ++ error)
           end] |}).
Proof.
  intros name data out w H jsonPath srsPath. subst jsonPath srsPath.
  assert (Hr : (length (rulesOf data) =? 0)%nat = false).
  { unfold rulesOf.
    destruct (domains data) as [|x xs], (subnets data) as [|y ys]; try reflexivity.
    destruct H as [H | H]; now destruct H. }
  unfold generateSrs, bind, emit, log, emit. simpl. rewrite Hr.
  destruct (singBox E _ _); simpl; now rewrite <- !app_assoc.
Qed.

(** X14: the counts the run prints for an outbound are the lengths of its
    sequences before deduplication. *)
Theorem printed_counts_precede_dedupe :
  forall config w1 k d,
    forEach (processRule E) (rules config) (startWorld E) = (Return tt, w1) ->
    In (k, d) (outbounds w1) ->
    In (ConsoleLog ("  Domains: " ++ showNat (length (domains d)) ++
                    ", Subnets: " ++ showNat (length (subnets d))))
       (trace (snd (main E config emptyWorld))).
Proof.
  intros config w1 k d H Hin. rewrite main_run, H. simpl.
  apply in_or_app. right. right. apply in_or_app. left.
  apply in_flat_map. exists (k, d). split; [exact Hin |].
  unfold outboundTrace. simpl. right. now left.
Qed.

End Reports.

Lemma route_count line d :
  trim line <> EmptyString ->
  length (domains (route (resolveMixedEntry line) d)) +
  length (subnets (route (resolveMixedEntry line) d)) =
  S (length (domains d) + length (subnets d)).
Proof.
  intros H. unfold resolveMixedEntry.
  destruct (trim line) as [|c r] eqn:Et; [now destruct H |]. simpl.
  destruct (isIpOrCidr line); simpl; rewrite length_app; simpl; lia.
Qed.

Lemma routeAll_count lines : forall d,
  Forall (fun line => trim line <> EmptyString) lines ->
  length (domains (routeAll lines d)) + length (subnets (routeAll lines d)) =
  length (domains d) + length (subnets d) + length lines.
Proof.
  induction lines as [|line lines IH]; intros d H; simpl; [lia |].
  inversion H as [|? ? Hl Hls]; subst.
  unfold routeAll in *. simpl. rewrite (IH _ Hls), (route_count line d Hl). lia.
Qed.

(** X15: routing the lines of a nested list puts every line that is not
    blank into exactly one of the two sequences: together they grow by the
    number of lines. *)
Theorem nested_lines_all_routed :
  forall key lines w d,
    mapGet key (outbounds w) = Some d ->
    Forall (fun line => trim line <> EmptyString) lines ->
    exists d',
      forEach (fun line => addMixedEntry line key) lines w =
      (Return tt, withData key d' w) /\
      length (domains d') + length (subnets d') =
      length (domains d) + length (subnets d) + length lines.
Proof.
  intros key lines w d Hg Hl. exists (routeAll lines d).
  split; [now apply forEach_addMixedEntry | now apply routeAll_count].
Qed.

Lemma nested_lines_all_routed_witness :
  exists d',
    forEach (fun line => addMixedEntry line "direct")
      ["10.0.0.0/24"; "*.Example.org"; "1.2.3.4/"] Demo.fresh =
    (Return tt, withData "direct" d' Demo.fresh) /\
    length (domains d') + length (subnets d') = 0 + 0 + 3.
Proof.
  assert (H : Forall (fun line => trim line <> EmptyString)
                ["10.0.0.0/24"; "*.Example.org"; "1.2.3.4/"])
    by (repeat constructor; vm_compute; discriminate).
  exact (nested_lines_all_routed "direct"
           ["10.0.0.0/24"; "*.Example.org"; "1.2.3.4/"] Demo.fresh
           {| domains := []; subnets := [] |} eq_refl H).
Defined.

Lemma trimStart_toLowerCase s : trimStart (toLowerCase s) = toLowerCase (trimStart s).
Proof.
  induction s as [|c s IH]; simpl; [reflexivity |].
  rewrite isWhiteSpace_lowerChar. now destruct (isWhiteSpace c).
Qed.

Lemma trim_toLowerCase s : trim (toLowerCase s) = toLowerCase (trim s).
Proof. unfold trim. now rewrite trimStart_toLowerCase, trimEnd_toLowerCase. Qed.

(** X16: the three functions of the classifier and the normaliser do not
    see whitespace around a token. *)
Theorem surrounding_whitespace_is_ignored :
  forall x,
    isIpOrCidr (trim x) = isIpOrCidr x /\
    normalizeCidr (trim x) = normalizeCidr x /\
    normalizeDomainSuffix (trim x) = normalizeDomainSuffix x.
Proof.
  intros x. pose proof (trim_idem x) as H.
  unfold isIpOrCidr, normalizeCidr, normalizeDomainSuffix.
  rewrite H. repeat split; reflexivity.
Qed.

(** X17: [normalizeDomainSuffix] does not see the case of letters: two
    tokens with the same lower-case form have the same normalised suffix. *)
Theorem normalizeDomainSuffix_ignores_case :
  forall a b,
    toLowerCase a = toLowerCase b ->
    normalizeDomainSuffix a = normalizeDomainSuffix b.
Proof.
  intros a b H. rewrite !normalizeDomainSuffix_strip.
  rewrite <- !trim_toLowerCase. now rewrite H.
Qed.

Lemma normalizeDomainSuffix_ignores_case_witness :
  normalizeDomainSuffix "*.Example.COM" = normalizeDomainSuffix "*.eXAMPLE.com".
Proof.
  apply normalizeDomainSuffix_ignores_case. reflexivity.
Defined.

Lemma generateSrs_reports_compiler_witness :
  fst (generateSrs Demo.E "direct"
         {| domains := ["example.com"]; subnets := [] |} "/etc/rules" emptyWorld) =
  Return tt.
Proof.
  rewrite (generateSrs_reports_compiler Demo.E "direct"
             {| domains := ["example.com"]; subnets := [] |} "/etc/rules" emptyWorld).
  - reflexivity.
  - left. discriminate.
Defined.

Lemma printed_counts_witness :
  In (ConsoleLog "  Domains: 3, Subnets: 5")
     (trace (snd (main Demo.E Demo.config emptyWorld))).
Proof.
  apply (printed_counts_precede_dedupe Demo.E Demo.config
           (snd (forEach (processRule Demo.E) (rules Demo.config)
                   (startWorld Demo.E)))
           "direct"
           {| domains := ["example.com"; "example.com"; "example.org"];
              subnets := ["8.8.8.8/32"; "10.0.0.0/24"; "1.2.3.4/"; "1.1.1.1/32";
                          "8.8.8.8/32"] |}).
  - vm_compute. reflexivity.
  - vm_compute. left. reflexivity.
Defined.
